(** * AutobahnCpp: WAMP-CRA authentication helpers and the transport interface

    A shallow embedding of [autobahn/wamp_auth_utils.hpp] and of the
    handler-attachment part of [autobahn/wamp_transport.hpp].

    - [std::string] is a [list ascii] (a sequence of 8-bit chars);
    - C [int], [unsigned int] and [size_t] values are [Z], with the
      conversions between them written out where the code performs one;
    - a C++ function that may throw returns a [result];
    - the calls into OpenSSL 1.0.x ([HMAC_CTX_init] and a stack allocated
      [HMAC_CTX] only exist in that API generation) are modelled in the
      module [OpenSSL] after the library's C code. *)

From Stdlib Require Import ZArith Ascii String Bool Lia List.
Import ListNotations.
Local Open Scope Z_scope.

(** ** Chars and bytes *)

(** The value of a char read as [unsigned char]. *)
Definition Z_of_ascii (c : ascii) : Z := Z.of_N (N_of_ascii c).

(** The cast [(unsigned char) z]: the low eight bits of [z]. *)
Definition ascii_of_Z (z : Z) : ascii := ascii_of_N (Z.to_N (z mod 256)).

(** A string literal as a [std::string]. *)
Definition str (s : string) : list ascii := list_ascii_of_string s.

(** [memcpy(buf, data, length data)]: overwrite the front of [buf]. *)
Definition store (buf data : list ascii) : list ascii :=
  data ++ skipn (length data) buf.

(** ** The parts of OpenSSL the header calls *)

Module OpenSSL.

(** *** SHA-256 (crypto/sha/sha256.c, FIPS 180-4) *)

Definition u32 (x : Z) : Z := x mod 2 ^ 32.

Definition ROTR (x n : Z) : Z :=
  Z.lor (Z.shiftr x n) (u32 (Z.shiftl x (32 - n))).

Definition not32 (x : Z) : Z := Z.lxor x 0xffffffff.

Definition Ch (x y z : Z) : Z := Z.lxor (Z.land x y) (Z.land (not32 x) z).
Definition Maj (x y z : Z) : Z :=
  Z.lxor (Z.lxor (Z.land x y) (Z.land x z)) (Z.land y z).
Definition Sigma0 (x : Z) : Z := Z.lxor (Z.lxor (ROTR x 2) (ROTR x 13)) (ROTR x 22).
Definition Sigma1 (x : Z) : Z := Z.lxor (Z.lxor (ROTR x 6) (ROTR x 11)) (ROTR x 25).
Definition sigma0 (x : Z) : Z := Z.lxor (Z.lxor (ROTR x 7) (ROTR x 18)) (Z.shiftr x 3).
Definition sigma1 (x : Z) : Z := Z.lxor (Z.lxor (ROTR x 17) (ROTR x 19)) (Z.shiftr x 10).

Definition K256 : list Z :=
  [ 0x428A2F98; 0x71374491; 0xB5C0FBCF; 0xE9B5DBA5;
    0x3956C25B; 0x59F111F1; 0x923F82A4; 0xAB1C5ED5;
    0xD807AA98; 0x12835B01; 0x243185BE; 0x550C7DC3;
    0x72BE5D74; 0x80DEB1FE; 0x9BDC06A7; 0xC19BF174;
    0xE49B69C1; 0xEFBE4786; 0x0FC19DC6; 0x240CA1CC;
    0x2DE92C6F; 0x4A7484AA; 0x5CB0A9DC; 0x76F988DA;
    0x983E5152; 0xA831C66D; 0xB00327C8; 0xBF597FC7;
    0xC6E00BF3; 0xD5A79147; 0x06CA6351; 0x14292967;
    0x27B70A85; 0x2E1B2138; 0x4D2C6DFC; 0x53380D13;
    0x650A7354; 0x766A0ABB; 0x81C2C92E; 0x92722C85;
    0xA2BFE8A1; 0xA81A664B; 0xC24B8B70; 0xC76C51A3;
    0xD192E819; 0xD6990624; 0xF40E3585; 0x106AA070;
    0x19A4C116; 0x1E376C08; 0x2748774C; 0x34B0BCB5;
    0x391C0CB3; 0x4ED8AA4A; 0x5B9CCA4F; 0x682E6FF3;
    0x748F82EE; 0x78A5636F; 0x84C87814; 0x8CC70208;
    0x90BEFFFA; 0xA4506CEB; 0xBEF9A3F7; 0xC67178F2 ].

(** The eight chaining words [h[0..7]] of a [SHA256_CTX]. *)
Record SHA256_CTX : Type := mkctx
  { ha : Z; hb : Z; hc : Z; hd : Z; he : Z; hf : Z; hg : Z; hh : Z }.

Definition SHA256_Init : SHA256_CTX :=
  mkctx 0x6A09E667 0xBB67AE85 0x3C6EF372 0xA54FF53A
        0x510E527F 0x9B05688C 0x1F83D9AB 0x5BE0CD19.

(** Big-endian load of the 32-bit word at byte offset [4*i] of a block. *)
Definition load_be32 (block : list Z) (i : nat) : Z :=
  let b k := nth (4 * i + k) block 0 in
  Z.lor (Z.lor (Z.lor (Z.shiftl (b 0%nat) 24) (Z.shiftl (b 1%nat) 16))
               (Z.shiftl (b 2%nat) 8)) (b 3%nat).

(** Extend the message schedule by [n] words. *)
Fixpoint schedule (n : nat) (w : list Z) : list Z :=
  match n with
  | O => w
  | S n' =>
      let t := length w in
      let x k := nth (t - k) w 0 in
      schedule n'
        (w ++ [u32 (sigma1 (x 2%nat) + x 7%nat + sigma0 (x 15%nat) + x 16%nat)])
  end.

Definition round (s : SHA256_CTX) (kw : Z * Z) : SHA256_CTX :=
  let (k, w) := kw in
  let T1 := u32 (hh s + Sigma1 (he s) + Ch (he s) (hf s) (hg s) + k + w) in
  let T2 := u32 (Sigma0 (ha s) + Maj (ha s) (hb s) (hc s)) in
  mkctx (u32 (T1 + T2)) (ha s) (hb s) (hc s) (u32 (hd s + T1)) (he s) (hf s) (hg s).

(** [sha256_block_data_order] on one 64-byte block. *)
Definition sha256_block (s : SHA256_CTX) (block : list Z) : SHA256_CTX :=
  let w := schedule 48 (map (load_be32 block) (seq 0 16)) in
  let r := fold_left round (combine K256 w) s in
  mkctx (u32 (ha s + ha r)) (u32 (hb s + hb r)) (u32 (hc s + hc r))
        (u32 (hd s + hd r)) (u32 (he s + he r)) (u32 (hf s + hf r))
        (u32 (hg s + hg r)) (u32 (hh s + hh r)).

(** Big-endian bytes of a value, [n] bytes wide. *)
Fixpoint be_bytes (n : nat) (x : Z) : list Z :=
  match n with
  | O => []
  | S n' => Z.land (Z.shiftr x (8 * Z.of_nat n')) 0xff :: be_bytes n' x
  end.

(** The padding appended by [SHA256_Final]: a one bit, zeros up to 56
    modulo 64, and the message length in bits as a 64-bit big-endian value. *)
Definition sha256_pad (len : nat) : list Z :=
  0x80 :: repeat 0 (Z.to_nat ((55 - Z.of_nat len) mod 64))
       ++ be_bytes 8 (8 * Z.of_nat len).

Definition sha256_blocks (data : list Z) : list (list Z) :=
  map (fun j => firstn 64 (skipn (64 * j) data)) (seq 0 (length data / 64)).

Definition sha256_digest (s : SHA256_CTX) : list Z :=
  be_bytes 4 (ha s) ++ be_bytes 4 (hb s) ++ be_bytes 4 (hc s) ++ be_bytes 4 (hd s)
  ++ be_bytes 4 (he s) ++ be_bytes 4 (hf s) ++ be_bytes 4 (hg s) ++ be_bytes 4 (hh s).

(** [SHA256(data)]: init, update with all of [data], final. *)
Definition SHA256 (data : list ascii) : list ascii :=
  let m := map Z_of_ascii data in
  let padded := m ++ sha256_pad (length m) in
  map ascii_of_Z (sha256_digest (fold_left sha256_block (sha256_blocks padded) SHA256_Init)).

(** *** HMAC (crypto/hmac/hmac.c)

    A message-digest context is represented by the bytes it has absorbed:
    finishing it hashes them. *)

Inductive EVP_MD : Type := EVP_sha256.

Definition EVP_MD_size (md : EVP_MD) : Z := 32.
Definition EVP_MD_block_size (md : EVP_MD) : Z := 64.
Definition HMAC_MAX_MD_CBLOCK : Z := 128.

Definition EVP_Digest (md : EVP_MD) (data : list ascii) : list ascii :=
  match md with EVP_sha256 => SHA256 data end.

Record HMAC_CTX : Type := mkhmac
  { i_ctx : list ascii; o_ctx : list ascii; md_ctx : list ascii }.

Definition HMAC_CTX_init : HMAC_CTX := mkhmac [] [] [].

Definition xor_byte (x : Z) (c : ascii) : ascii :=
  ascii_of_Z (Z.lxor x (Z_of_ascii c)).

(** [HMAC_Init_ex(ctx, key, len, md, NULL)]: a key longer than the block
    size is replaced by its digest; the key is zero-padded to
    [HMAC_MAX_MD_CBLOCK] bytes and the first [EVP_MD_block_size] bytes of
    [0x36 ^ key] and of [0x5c ^ key] start the inner and outer contexts. *)
Definition HMAC_Init_ex (ctx : HMAC_CTX) (key : list ascii) (len : Z) (md : EVP_MD)
  : HMAC_CTX :=
  let j := EVP_MD_block_size md in
  let k := firstn (Z.to_nat len) key in
  let k := if j <? len then EVP_Digest md k else k in
  let k := k ++ repeat zero (Z.to_nat HMAC_MAX_MD_CBLOCK - length k) in
  let ipad := firstn (Z.to_nat j) (map (xor_byte 0x36) k) in
  let opad := firstn (Z.to_nat j) (map (xor_byte 0x5c) k) in
  mkhmac ipad opad ipad.

Definition HMAC_Update (ctx : HMAC_CTX) (data : list ascii) (len : Z) : HMAC_CTX :=
  mkhmac (i_ctx ctx) (o_ctx ctx) (md_ctx ctx ++ firstn (Z.to_nat len) data).

(** [HMAC_Final(ctx, md, &len)]: the digest written to [md]. *)
Definition HMAC_Final (md : EVP_MD) (ctx : HMAC_CTX) : list ascii :=
  let buf := EVP_Digest md (md_ctx ctx) in
  EVP_Digest md (o_ctx ctx ++ buf).

(** *** PBKDF2 (crypto/evp/p5_crpt2.c) *)

(** The inner loop [for (j = 1; j < iter; j++)]: [n] further rounds, each
    replacing [digtmp] by its HMAC and xoring it into the block [p]. *)
Fixpoint pbkdf2_rounds (n : nat) (hctx_tpl : HMAC_CTX) (md : EVP_MD)
    (digtmp p : list ascii) : list ascii :=
  match n with
  | O => p
  | S n' =>
      let hctx := HMAC_Update hctx_tpl digtmp (EVP_MD_size md) in
      let digtmp := HMAC_Final md hctx in
      let p := map (fun pk => ascii_of_Z (Z.lxor (Z_of_ascii (fst pk)) (Z_of_ascii (snd pk))))
                   (combine p digtmp) in
      pbkdf2_rounds n' hctx_tpl md digtmp p
  end.

(** The outer loop [while (tkeylen)], one output block per turn; [out] is
    what has been written through the cursor [p] so far. *)
Fixpoint pbkdf2_blocks (fuel : nat) (hctx_tpl : HMAC_CTX) (md : EVP_MD)
    (salt : list ascii) (saltlen iter tkeylen i : Z) (out : list ascii)
  : list ascii :=
  if tkeylen =? 0 then out else
  match fuel with
  | O => out
  | S fuel' =>
      let mdlen := EVP_MD_size md in
      let cplen := if tkeylen >? mdlen then mdlen else tkeylen in
      let itmp := map ascii_of_Z
                    [ Z.land (Z.shiftr i 24) 0xff; Z.land (Z.shiftr i 16) 0xff;
                      Z.land (Z.shiftr i 8) 0xff; Z.land i 0xff ] in
      let hctx := HMAC_Update (HMAC_Update hctx_tpl salt saltlen) itmp 4 in
      let digtmp := HMAC_Final md hctx in
      let p := firstn (Z.to_nat cplen) digtmp in
      let p := pbkdf2_rounds (Z.to_nat (iter - 1)) hctx_tpl md digtmp p in
      pbkdf2_blocks fuel' hctx_tpl md salt saltlen iter (tkeylen - cplen) (i + 1)
                    (out ++ p)
  end.

(** [PKCS5_PBKDF2_HMAC(pass, passlen, salt, saltlen, iter, digest, keylen, out)]
    as in OpenSSL 1.0.x: the return code and the contents of the buffer
    [out] after the call.  With a message digest at hand no step of it
    fails, so the return code is 1.  The loop runs once per output block,
    at most [keylen] times; a negative [keylen] is outside the model (the C
    code then copies a negative number of bytes).  An [iter] below 1 makes
    the inner loop run no turn, as for 1; later releases of the library
    (3.x) refuse it instead: they return 0 and leave [out] as it was.  The
    two agree for [iter >= 1]. *)
Definition PKCS5_PBKDF2_HMAC (pass : list ascii) (passlen : Z)
    (salt : list ascii) (saltlen : Z) (iter : Z) (digest : EVP_MD)
    (keylen : Z) (out : list ascii) : Z * list ascii :=
  let hctx_tpl := HMAC_Init_ex HMAC_CTX_init pass passlen digest in
  (1, store out (pbkdf2_blocks (Z.to_nat keylen) hctx_tpl digest salt saltlen
                               iter keylen 1 [])).

(** *** Base64 (crypto/evp/encode.c, crypto/evp/bio_b64.c) *)

Definition data_bin2ascii : list ascii :=
  str "ABCDEFGHIJKLMNOPQRSTUVWXYZabcdefghijklmnopqrstuvwxyz0123456789+/".

Definition conv_bin2ascii (a : Z) : ascii :=
  nth (Z.to_nat (Z.land a 0x3f)) data_bin2ascii "A"%char.

(** [EVP_EncodeBlock(t, f, dlen)]: three bytes become four characters; a
    last group of one or two bytes is padded with '='. *)
Fixpoint EVP_EncodeBlock (f : list ascii) : list ascii :=
  match f with
  | [] => []
  | [f0] =>
      let l := Z.shiftl (Z_of_ascii f0) 16 in
      [ conv_bin2ascii (Z.shiftr l 18); conv_bin2ascii (Z.shiftr l 12);
        "="%char; "="%char ]
  | [f0; f1] =>
      let l := Z.lor (Z.shiftl (Z_of_ascii f0) 16) (Z.shiftl (Z_of_ascii f1) 8) in
      [ conv_bin2ascii (Z.shiftr l 18); conv_bin2ascii (Z.shiftr l 12);
        conv_bin2ascii (Z.shiftr l 6); "="%char ]
  | f0 :: f1 :: f2 :: f' =>
      let l := Z.lor (Z.lor (Z.shiftl (Z_of_ascii f0) 16) (Z.shiftl (Z_of_ascii f1) 8))
                     (Z_of_ascii f2) in
      conv_bin2ascii (Z.shiftr l 18) :: conv_bin2ascii (Z.shiftr l 12)
      :: conv_bin2ascii (Z.shiftr l 6) :: conv_bin2ascii l
      :: EVP_EncodeBlock f'
  end.

(** A base64 filter BIO with [BIO_FLAGS_BASE64_NO_NL] set, pushed onto a
    memory BIO: [tmp] holds the input bytes not yet encoded (fewer than
    three), [mem] is the [BUF_MEM] of the memory sink. *)
Record BIO : Type := mkbio { tmp : list ascii; mem : list ascii }.

Definition BIO_new_b64_mem : BIO := mkbio [] [].

(** [BIO_write]: whole groups of three bytes are encoded and passed on to
    the sink, the remainder waits in [tmp]. *)
Definition BIO_write (bio : BIO) (data : list ascii) (len : Z) : BIO :=
  let input := tmp bio ++ firstn (Z.to_nat len) data in
  let n := (length input - length input mod 3)%nat in
  mkbio (skipn n input) (mem bio ++ EVP_EncodeBlock (firstn n input)).

(** [BIO_flush]: what is left in [tmp] is encoded, with padding. *)
Definition BIO_flush (bio : BIO) : BIO :=
  mkbio [] (mem bio ++ EVP_EncodeBlock (tmp bio)).

(** [BIO_get_mem_ptr]: the data of the sink. *)
Definition BIO_get_mem_ptr (bio : BIO) : list ascii := mem bio.

End OpenSSL.

(** ** autobahn/wamp_auth_utils.hpp *)

(** The exceptions the header's functions can leave with:
    [derived_key_error], declared in the header, and the
    [std::length_error] of [std::string::resize]. *)
Inductive exn : Type := derived_key_error | length_error.

Inductive result (A : Type) : Type :=
| Return (a : A)
| Throw (e : exn).
Arguments Return {A} a.
Arguments Throw {A} e.

(** [s.size()]; sizes stay below [INT_MAX], so passing one as an [int]
    does not change it. *)
Definition size (s : list ascii) : Z := Z.of_nat (length s).

Definition INT_MIN : Z := - 2 ^ 31.
Definition INT_MAX : Z := 2 ^ 31 - 1.

(** Conversion of an [int] to [size_t] (64 bits wide). *)
Definition to_size_t (n : Z) : Z := n mod 2 ^ 64.

(** [std::string::max_size()], here that of libstdc++ on a 64-bit target.
    Every value from [INT_MAX] up to [2^64 - 2^31 - 1] treats the [int]
    arguments of this header alike: a negative [int] converted to [size_t]
    lies above it, and no other does. *)
Definition max_size : Z := 2 ^ 62 - 1.

(** [s.resize(n)]: throws [std::length_error] beyond [max_size()], else
    truncates or fills up with zero chars. *)
Definition resize (s : list ascii) (n : Z) : result (list ascii) :=
  if max_size <? n then Throw length_error
  else Return (firstn (Z.to_nat n) s ++ repeat zero (Z.to_nat n - length s)).

(** [base_64_encode(data)] *)
Definition base_64_encode (data : list ascii) : list ascii :=
  let bio := OpenSSL.BIO_new_b64_mem in
  let bio := OpenSSL.BIO_write bio data (size data) in
  let bio := OpenSSL.BIO_flush bio in
  let pBuf := OpenSSL.BIO_get_mem_ptr bio in
  let str_out := pBuf in
  str_out.

Section DeriveKey.

(** The key-stretching primitive of the crypto library: from the
    arguments of the C call and the contents of the output buffer, the
    return code and the buffer afterwards. *)
Variable PKCS5_PBKDF2_HMAC :
  list ascii -> Z -> list ascii -> Z -> Z -> OpenSSL.EVP_MD -> Z -> list ascii ->
  Z * list ascii.

(** [derive_key(passwd, salt, iterations, keylen)] *)
Definition derive_key (passwd salt : list ascii) (iterations keylen : Z)
  : result (list ascii) :=
  let passwdLen := size passwd in
  let saltLen := size salt in
  match resize [] (to_size_t keylen) with
  | Throw e => Throw e
  | Return str_out =>
      let (result, str_out) :=
        PKCS5_PBKDF2_HMAC passwd passwdLen salt saltLen iterations
                          OpenSSL.EVP_sha256 keylen str_out in
      if negb (result =? 0) then Return (base_64_encode str_out)
      else Throw derived_key_error
  end.

End DeriveKey.

Section ComputeWcs.

(** [unsigned char hash[32]] is not initialised: at entry it holds
    whatever 32 bytes the stack holds. *)
Variable hash : list ascii.

(** [compute_wcs(key, challenge)] *)
Definition compute_wcs (key challenge : list ascii) : list ascii :=
  let hmac := OpenSSL.HMAC_CTX_init in
  let hmac := OpenSSL.HMAC_Init_ex hmac key (size key) OpenSSL.EVP_sha256 in
  let hmac := OpenSSL.HMAC_Update hmac challenge (size challenge) in
  let hash := store hash (OpenSSL.HMAC_Final OpenSSL.EVP_sha256 hmac) in
  let str_out := firstn 32 hash in
  base_64_encode str_out.

End ComputeWcs.

(** The array [WCS_SECRET_CHARSET], with its terminating zero char. *)
Definition WCS_SECRET_CHARSET : list ascii :=
  str "ABCDEFGHIJKLMNOPQRSTUVWXYZabcdefghijklmnopqrstuvwxyz0123456789" ++ [zero].

Definition sizeof_WCS_SECRET_CHARSET : Z := size WCS_SECRET_CHARSET.

(** The character chosen for the value [r] returned by [rand()]:
    [WCS_SECRET_CHARSET[ r % (sizeof(WCS_SECRET_CHARSET) - 1) ]], the
    remainder taken in [size_t]. *)
Definition wcs_index (r : Z) : Z := to_size_t r mod (sizeof_WCS_SECRET_CHARSET - 1).

Definition wcs_char (r : Z) : ascii :=
  nth (Z.to_nat (wcs_index r)) WCS_SECRET_CHARSET zero.

Section GenerateWcs.

(** The process-wide generator behind [rand()]: a hidden state, and a
    step that returns a value and the next state. *)
Variable rand_state : Type.
Variable rand : rand_state -> Z * rand_state.

(** [n] turns of the loop body [s.push_back(...)]. *)
Fixpoint generate_wcs_loop (n : nat) (s : list ascii) (st : rand_state)
  : list ascii * rand_state :=
  match n with
  | O => (s, st)
  | S n' =>
      let (r, st) := rand st in
      generate_wcs_loop n' (s ++ [wcs_char r]) st
  end.

(** [generate_wcs(length)]: the loop [for (int i = 0; i < length; ++i)]
    makes [length] turns, none when [length <= 0]. *)
Definition generate_wcs (length : Z) (st : rand_state) : list ascii * rand_state :=
  generate_wcs_loop (Z.to_nat length) [] st.

(** The default argument [length = 14]: the call [generate_wcs()]. *)
Definition generate_wcs_default (st : rand_state) : list ascii * rand_state :=
  generate_wcs 14 st.

End GenerateWcs.

Arguments generate_wcs_loop {rand_state} rand n s st.
Arguments generate_wcs {rand_state} rand length st.
Arguments generate_wcs_default {rand_state} rand st.

(** The characters the loop can select: the array without its zero char. *)
Definition wcs_alphabet : list ascii := removelast WCS_SECRET_CHARSET.

(** Upper-case Latin letter, lower-case Latin letter or digit. *)
Definition alphanumeric (c : ascii) : bool :=
  let n := Z_of_ascii c in
  ((65 <=? n) && (n <=? 90)) || ((97 <=? n) && (n <=? 122))
  || ((48 <=? n) && (n <=? 57)).

(** The generator given as an example by the C standard (7.22.2.2), with
    [RAND_MAX] 32767. *)
Definition c_rand (next : Z) : Z * Z :=
  let next := (next * 1103515245 + 12345) mod 2 ^ 32 in
  ((next / 65536) mod 32768, next).

(** The number of values [r] among the [n] values [r0 .. r0 + n - 1] that
    select the character at index [i]. *)
Fixpoint count_from (n : nat) (r0 : Z) (i : Z) : Z :=
  match n with
  | O => 0
  | S n' => (if wcs_index r0 =? i then 1 else 0) + count_from n' (r0 + 1) i
  end.

(** The number of values in [0 .. RAND_MAX], the range of [rand()], that
    select the character at index [i]. *)
Definition raw_count (RAND_MAX : Z) (i : Z) : Z :=
  count_from (Z.to_nat (RAND_MAX + 1)) 0 i.

(** ** Decoding *)

(** Modelled from the spec: the header has no decoder; "decoding" in the
    round-trip property is the inverse of the encoding.  This is the value
    of one character of the alphabet, the inverse of
    [OpenSSL.conv_bin2ascii]. *)
Definition conv_ascii2bin (c : ascii) : option Z :=
  let fix find (l : list ascii) (i : Z) : option Z :=
    match l with
    | [] => None
    | x :: l' => if Ascii.eqb x c then Some i else find l' (i + 1)
    end in
  find OpenSSL.data_bin2ascii 0.

(** Modelled from the spec: the padding character of the encoding. *)
Definition is_pad (c : ascii) : bool := Ascii.eqb c "="%char.

(** Modelled from the spec: the decoder, the inverse of [base_64_encode].
    It reads groups of four characters of the alphabet, each group giving
    three bytes; the last group may end in one or two '=' and then gives
    two bytes or one.  Anything else is not an encoding. *)
Fixpoint base_64_decode (s : list ascii) : option (list ascii) :=
  match s with
  | [] => Some []
  | c0 :: c1 :: c2 :: c3 :: s' =>
      match conv_ascii2bin c0, conv_ascii2bin c1 with
      | Some a0, Some a1 =>
          if is_pad c2 && is_pad c3 then
            match s' with
            | [] => Some [ascii_of_Z ((a0 * 64 + a1) / 16)]
            | _ => None
            end
          else
            match conv_ascii2bin c2 with
            | None => None
            | Some a2 =>
                let l := (a0 * 64 + a1) * 64 + a2 in
                if is_pad c3 then
                  match s' with
                  | [] => Some [ascii_of_Z (l / 1024); ascii_of_Z (l / 4)]
                  | _ => None
                  end
                else
                  match conv_ascii2bin c3, base_64_decode s' with
                  | Some a3, Some d =>
                      let l := l * 64 + a3 in
                      Some (ascii_of_Z (l / 65536) :: ascii_of_Z (l / 256)
                            :: ascii_of_Z l :: d)
                  | _, _ => None
                  end
            end
      | _, _ => None
      end
  | _ => None
  end.

(** ** The key stream of PBKDF2 *)

(** The block that one turn of the loop of [PKCS5_PBKDF2_HMAC] computes
    for the block counter [i], before it is cut to [cplen] bytes: the xor
    of the [iter] chained HMAC values (the block T_i of RFC 8018, 5.2). *)
Definition pbkdf2_T (hctx_tpl : OpenSSL.HMAC_CTX) (md : OpenSSL.EVP_MD)
    (salt : list ascii) (saltlen iter i : Z) : list ascii :=
  let itmp := map ascii_of_Z
                [ Z.land (Z.shiftr i 24) 0xff; Z.land (Z.shiftr i 16) 0xff;
                  Z.land (Z.shiftr i 8) 0xff; Z.land i 0xff ] in
  let hctx := OpenSSL.HMAC_Update (OpenSSL.HMAC_Update hctx_tpl salt saltlen) itmp 4 in
  let digtmp := OpenSSL.HMAC_Final md hctx in
  OpenSSL.pbkdf2_rounds (Z.to_nat (iter - 1)) hctx_tpl md digtmp digtmp.

(** The first [n] blocks, from block counter [i] on. *)
Fixpoint pbkdf2_stream (n : nat) (hctx_tpl : OpenSSL.HMAC_CTX) (md : OpenSSL.EVP_MD)
    (salt : list ascii) (saltlen iter i : Z) : list ascii :=
  match n with
  | O => []
  | S n' => pbkdf2_T hctx_tpl md salt saltlen iter i
            ++ pbkdf2_stream n' hctx_tpl md salt saltlen iter (i + 1)
  end.

(** ** Printing bytes, for the test vectors *)

Definition hex_digit (n : Z) : ascii :=
  nth (Z.to_nat n) (str "0123456789abcdef") "0"%char.

Definition hex (s : list ascii) : list ascii :=
  flat_map (fun c => [hex_digit (Z_of_ascii c / 16); hex_digit (Z_of_ascii c mod 16)]) s.

(** [HMAC(EVP_sha256(), key, ..., d, ...)], the one-shot form. *)
Definition HMAC_sha256 (key d : list ascii) : list ascii :=
  let c := OpenSSL.HMAC_Init_ex OpenSSL.HMAC_CTX_init key (size key) OpenSSL.EVP_sha256 in
  OpenSSL.HMAC_Final OpenSSL.EVP_sha256 (OpenSSL.HMAC_Update c d (size d)).

(** ** autobahn/wamp_transport.hpp: handler attachment *)

Module Transport.

(** How a call of [attach] ends: the interface returns [void], and a
    transport that refuses the call does so by a failed precondition. *)
Inductive outcome : Type := accepted | contract_violation.

(** The part of the abstract class [wamp_transport] that deals with the
    handler: the pure virtual functions [attach], [detach] and
    [has_handler], over the state [T] of an implementation. *)
Class wamp_transport (handler T : Type) : Type :=
  { attach : handler -> T -> outcome * T;
    detach : T -> T;
    has_handler : T -> bool }.

Section Reference.

Variable handler : Type.

(** Modelled from the spec: no class implementing the interface is among
    the sources.  The state of a transport, as far as the handler goes: at
    most one attached handler. *)
Record transport : Type := mktransport { m_handler : option handler }.

(** Modelled from the spec: [has_handler()] reports the attachment state. *)
Definition transport_has_handler (t : transport) : bool :=
  match m_handler t with Some _ => true | None => false end.

(** Modelled from the spec: [attach(handler)] installs the handler;
    attaching while already attached is a contract violation and does not
    replace the handler. *)
Definition transport_attach (h : handler) (t : transport) : outcome * transport :=
  if transport_has_handler t then (contract_violation, t)
  else (accepted, mktransport (Some h)).

(** Modelled from the spec: [detach()] removes the handler. *)
Definition transport_detach (t : transport) : transport := mktransport None.

#[global] Instance reference_transport : wamp_transport handler transport :=
  { attach := transport_attach;
    detach := transport_detach;
    has_handler := transport_has_handler }.

End Reference.

Section Contract.

Context {handler T : Type} (impl : wamp_transport handler T).

(** Modelled from the spec: the contract of handler attachment that an
    implementation of the interface is to satisfy (sections 3 and 4.2).
    [attached] is the attribute "at most one attached Handler" of a
    transport; the laws are, in this order: [has_handler()] reports the
    attachment state; [attach(handler)] installs the handler when none is
    attached; attaching while already attached is a contract violation
    and does not replace the handler; [detach()] removes the handler. *)
Record contract (attached : T -> option handler) : Prop :=
  { has_handler_reports :
      forall t, has_handler t = true <-> attached t <> None;
    attach_installs :
      forall h t, attached t = None ->
        fst (attach h t) = accepted /\ attached (snd (attach h t)) = Some h;
    attach_attached :
      forall h t h0, attached t = Some h0 ->
        fst (attach h t) = contract_violation
        /\ attached (snd (attach h t)) = Some h0;
    detach_removes :
      forall t, attached (detach t) = None }.

(** A run of calls of [attach], one per handler of the list, with no
    [detach] in between: the outcomes and the transport afterwards. *)
Fixpoint attach_all (hs : list handler) (t : T) : list outcome * T :=
  match hs with
  | [] => ([], t)
  | h :: hs' =>
      let (o, t') := attach h t in
      let (os, t'') := attach_all hs' t' in
      (o :: os, t'')
  end.

End Contract.

(** An implementation of the interface that replaces the handler on every
    [attach]: what the contract is there to exclude. *)
Definition replacing_transport (handler : Type)
  : wamp_transport handler (transport handler) :=
  {| attach := fun h _ => (accepted, mktransport handler (Some h));
     detach := transport_detach handler;
     has_handler := transport_has_handler handler |}.

End Transport.

(** * Properties *)

(** ** Test vectors

    The models of the library functions reproduce the published vectors:
    FIPS 180-4 ("abc", the empty message, the two-block message), the
    HMAC-SHA-256 of the usual pangram and RFC 4231 (a key longer than a
    block), PBKDF2-HMAC-SHA-256 of "password" and "salt" and RFC 7914 (two
    output blocks), and RFC 4648 for base64. *)

Example SHA256_abc :
  hex (OpenSSL.SHA256 (str "abc"))
  = str "ba7816bf8f01cfea414140de5dae2223b00361a396177a9cb410ff61f20015ad".
Proof. vm_compute. reflexivity. Qed.

Example SHA256_empty :
  hex (OpenSSL.SHA256 [])
  = str "e3b0c44298fc1c149afbf4c8996fb92427ae41e4649b934ca495991b7852b855".
Proof. vm_compute. reflexivity. Qed.

Example SHA256_two_blocks :
  hex (OpenSSL.SHA256 (str "abcdbcdecdefdefgefghfghighijhijkijkljklmklmnlmnomnopnopq"))
  = str "248d6a61d20638b8e5c026930c3e6039a33ce45964ff2167f6ecedd419db06c1".
Proof. vm_compute. reflexivity. Qed.

Example HMAC_sha256_fox :
  hex (HMAC_sha256 (str "key") (str "The quick brown fox jumps over the lazy dog"))
  = str "f7bc83f430538424b13298e6aa6fb143ef4d59a14946175997479dbc2d1a3cd8".
Proof. vm_compute. reflexivity. Qed.

Example PBKDF2_password_salt_1 :
  OpenSSL.PKCS5_PBKDF2_HMAC (str "password") 8 (str "salt") 4 1 OpenSSL.EVP_sha256 32
                            (repeat zero 32)
  = (1, map ascii_of_Z
          [ 0x12; 0x0f; 0xb6; 0xcf; 0xfc; 0xf8; 0xb3; 0x2c;
            0x43; 0xe7; 0x22; 0x52; 0x56; 0xc4; 0xf8; 0x37;
            0xa8; 0x65; 0x48; 0xc9; 0x2c; 0xcc; 0x35; 0x48;
            0x08; 0x05; 0x98; 0x7c; 0xb7; 0x0b; 0xe1; 0x7b ]).
Proof. vm_compute. reflexivity. Qed.

Example PBKDF2_password_salt_2 :
  hex (snd (OpenSSL.PKCS5_PBKDF2_HMAC (str "password") 8 (str "salt") 4 2
              OpenSSL.EVP_sha256 32 (repeat zero 32)))
  = str "ae4d0c95af6b46d32d0adff928f06dd02a303f8ef3c251dfd6e2d85a95474c43".
Proof. vm_compute. reflexivity. Qed.

Example PBKDF2_passwd_salt_64 :
  hex (snd (OpenSSL.PKCS5_PBKDF2_HMAC (str "passwd") 6 (str "salt") 4 1
              OpenSSL.EVP_sha256 64 (repeat zero 64)))
  = str ("55ac046e56e3089fec1691c22544b605f94185216dde0465e68b9d57c20dacbc"
         ++ "49ca9cccf179b645991664b39d77ef317c71b845b1e30bd509112041d3a19783").
Proof. vm_compute. reflexivity. Qed.

Example HMAC_sha256_long_key :
  hex (HMAC_sha256 (repeat (ascii_of_Z 0xaa) 131)
         (str "Test Using Larger Than Block-Size Key - Hash Key First"))
  = str "60e431591ee0b67f0d8a26aacbf5b77f8e0bc6213728c5140546040f0ee37f54".
Proof. vm_compute. reflexivity. Qed.

Example base_64_encode_foobar :
  base_64_encode (str "foobar") = str "Zm9vYmFy"
  /\ base_64_encode (str "fooba") = str "Zm9vYmE="
  /\ base_64_encode (str "foob") = str "Zm9vYg=="
  /\ base_64_encode [] = [].
Proof. split; [|split; [|split]]; vm_compute; reflexivity. Qed.

Example base_64_decode_foobar :
  base_64_decode (str "Zm9vYmFy") = Some (str "foobar")
  /\ base_64_decode (str "Zm9vYmE=") = Some (str "fooba")
  /\ base_64_decode (str "Zm9vYg==") = Some (str "foob")
  /\ base_64_decode (str "Zm9vY") = None.
Proof. split; [|split; [|split]]; vm_compute; reflexivity. Qed.

Example compute_wcs_key_challenge :
  compute_wcs (repeat "x"%char 32) (str "key") (str "challenge")
  = str "/pSWP7rGsIbPhx1COvS7X3o9wOYdN+THjRIqbMdRs+g=".
Proof. vm_compute. reflexivity. Qed.

Example generate_wcs_c_rand :
  fst (generate_wcs c_rand 14 1) = str "k2HfzvIpe4V5gg".
Proof. vm_compute. reflexivity. Qed.

(** ** Bytes *)

Lemma Z_of_ascii_range (c : ascii) : 0 <= Z_of_ascii c < 256.
Proof.
  unfold Z_of_ascii. pose proof (N_ascii_bounded c). lia.
Qed.

Lemma ascii_of_Z_of_ascii (c : ascii) : ascii_of_Z (Z_of_ascii c) = c.
Proof.
  unfold ascii_of_Z. rewrite Z.mod_small by apply Z_of_ascii_range.
  unfold Z_of_ascii. rewrite N2Z.id. apply ascii_N_embedding.
Qed.

Lemma ascii_of_Z_mod (z : Z) : ascii_of_Z (z mod 256) = ascii_of_Z z.
Proof.
  unfold ascii_of_Z. now rewrite Z.mod_mod by lia.
Qed.

(** Induction over a list three elements at a time, the way
    [EVP_EncodeBlock] consumes its input. *)
Lemma list_ind3 {A : Type} (P : list A -> Prop) :
  P [] -> (forall a, P [a]) -> (forall a b, P [a; b]) ->
  (forall a b c l, P l -> P (a :: b :: c :: l)) ->
  forall l, P l.
Proof.
  intros H0 H1 H2 H3.
  fix IH 1. intros [|a [|b [|c l]]];
    [exact H0 | apply H1 | apply H2 | apply H3, IH].
Qed.

(** ** Shifts and masks as arithmetic *)

Lemma land_shiftl_small (a b n : Z) :
  0 <= n -> 0 <= b < 2 ^ n -> Z.land (Z.shiftl a n) b = 0.
Proof.
  intros Hn Hb. apply Z.bits_inj'. intros m Hm.
  rewrite Z.land_spec, Z.bits_0.
  destruct (Z.ltb_spec m n).
  - now rewrite Z.shiftl_spec_low.
  - replace (Z.testbit b m) with false; [apply andb_false_r|].
    symmetry. apply Z.testbit_false; [lia|].
    rewrite Z.div_small; [reflexivity|].
    split; [lia|]. apply Z.lt_le_trans with (2 ^ n); [lia|].
    apply Z.pow_le_mono_r; lia.
Qed.

Lemma lor_shiftl_add (a b n : Z) :
  0 <= n -> 0 <= b < 2 ^ n -> Z.lor (Z.shiftl a n) b = a * 2 ^ n + b.
Proof.
  intros Hn Hb.
  rewrite <- Z.lxor_lor by now apply land_shiftl_small.
  rewrite <- Z.add_nocarry_lxor by now apply land_shiftl_small.
  now rewrite Z.shiftl_mul_pow2.
Qed.

Lemma sextet (x k : Z) : 0 <= k -> Z.land (Z.shiftr x k) 0x3f = (x / 2 ^ k) mod 64.
Proof.
  intros Hk. change 0x3f with (Z.ones 6).
  rewrite Z.land_ones by lia. now rewrite Z.shiftr_div_pow2.
Qed.

Lemma pack2 (A B : Z) :
  0 <= A < 256 -> 0 <= B < 256 ->
  Z.lor (Z.shiftl A 16) (Z.shiftl B 8) = A * 65536 + B * 256.
Proof.
  intros HA HB.
  rewrite lor_shiftl_add; rewrite ?Z.shiftl_mul_pow2; lia.
Qed.

Lemma pack3 (A B C : Z) :
  0 <= A < 256 -> 0 <= B < 256 -> 0 <= C < 256 ->
  Z.lor (Z.lor (Z.shiftl A 16) (Z.shiftl B 8)) C = A * 65536 + B * 256 + C.
Proof.
  intros HA HB HC. rewrite pack2 by assumption.
  assert (E : Z.shiftl (A * 256 + B) 8 = A * 65536 + B * 256).
  { rewrite Z.shiftl_mul_pow2 by lia. change (2 ^ 8) with 256. lia. }
  rewrite <- E.
  rewrite lor_shiftl_add by lia. change (2 ^ 8) with 256. lia.
Qed.

(** ** The base64 alphabet *)

Import OpenSSL.

Lemma data_bin2ascii_index (n : nat) :
  (n < 64)%nat -> conv_ascii2bin (nth n data_bin2ascii "A"%char) = Some (Z.of_nat n).
Proof.
  intros H. do 64 (destruct n as [|n]; [reflexivity|]). lia.
Qed.

Lemma land_0x3f_range (x : Z) : 0 <= Z.land x 0x3f < 64.
Proof.
  change 0x3f with (Z.ones 6). rewrite Z.land_ones by lia.
  apply Z.mod_pos_bound. reflexivity.
Qed.

Lemma conv_ascii2bin_bin2ascii (x : Z) :
  conv_ascii2bin (conv_bin2ascii x) = Some (Z.land x 0x3f).
Proof.
  unfold conv_bin2ascii. pose proof (land_0x3f_range x).
  rewrite data_bin2ascii_index by lia. f_equal. lia.
Qed.

Lemma conv_bin2ascii_In (x : Z) : In (conv_bin2ascii x) data_bin2ascii.
Proof.
  unfold conv_bin2ascii. apply nth_In.
  pose proof (land_0x3f_range x). change (length data_bin2ascii) with 64%nat. lia.
Qed.

(** No character of the alphabet is the padding character or a newline. *)
Lemma data_bin2ascii_plain (c : ascii) :
  In c data_bin2ascii -> is_pad c = false /\ c <> "010"%char.
Proof.
  assert (H : forallb (fun c => negb (is_pad c) && negb (Ascii.eqb c "010"%char))
                      data_bin2ascii = true) by reflexivity.
  rewrite forallb_forall in H. intros Hc. apply H in Hc.
  apply andb_true_iff in Hc. destruct Hc as [H1 H2].
  split.
  - now apply negb_true_iff.
  - apply negb_true_iff in H2. now apply Ascii.eqb_neq.
Qed.

Lemma is_pad_conv_bin2ascii (x : Z) : is_pad (conv_bin2ascii x) = false.
Proof.
  apply data_bin2ascii_plain, conv_bin2ascii_In.
Qed.

(** ** Encoding, then decoding *)

Lemma EVP_EncodeBlock_app (a b : list ascii) :
  (length a mod 3 = 0)%nat ->
  EVP_EncodeBlock (a ++ b) = EVP_EncodeBlock a ++ EVP_EncodeBlock b.
Proof.
  induction a as [|x|x y|x y z a IH] using list_ind3; intros H.
  - reflexivity.
  - discriminate H.
  - discriminate H.
  - cbn [app EVP_EncodeBlock]. rewrite IH; [reflexivity|].
    change (length (x :: y :: z :: a)) with (3 + length a)%nat in H.
    replace (3 + length a)%nat with (length a + 1 * 3)%nat in H by lia.
    now rewrite Nat.Div0.mod_add in H.
Qed.

(** The filter and sink together compute the plain block encoding. *)
Lemma base_64_encode_EncodeBlock (data : list ascii) :
  base_64_encode data = EVP_EncodeBlock data.
Proof.
  unfold base_64_encode, BIO_get_mem_ptr, BIO_flush, BIO_write, BIO_new_b64_mem, size.
  cbn [tmp mem app]. rewrite Nat2Z.id, firstn_all.
  set (n := (length data - length data mod 3)%nat).
  rewrite <- EVP_EncodeBlock_app, firstn_skipn; [reflexivity|].
  rewrite firstn_length_le by (unfold n; lia).
  unfold n. pose proof (Nat.Div0.div_mod (length data) 3) as E.
  replace (length data - length data mod 3)%nat with (length data / 3 * 3)%nat by lia.
  apply Nat.Div0.mod_mul.
Qed.

Lemma EVP_DecodeBlock1 (A : Z) :
  0 <= A < 256 ->
  let l := Z.shiftl A 16 in
  (Z.land (Z.shiftr l 18) 0x3f * 64 + Z.land (Z.shiftr l 12) 0x3f) / 16 = A.
Proof.
  intros HA l. unfold l. rewrite !sextet by lia. rewrite Z.shiftl_mul_pow2 by lia.
  change (2 ^ 16) with 65536. change (2 ^ 18) with 262144. change (2 ^ 12) with 4096.
  Z.div_mod_to_equations. lia.
Qed.

Lemma EVP_DecodeBlock2 (A B : Z) :
  0 <= A < 256 -> 0 <= B < 256 ->
  let l := Z.lor (Z.shiftl A 16) (Z.shiftl B 8) in
  let d := (Z.land (Z.shiftr l 18) 0x3f * 64 + Z.land (Z.shiftr l 12) 0x3f) * 64
           + Z.land (Z.shiftr l 6) 0x3f in
  d / 1024 = A /\ (d / 4) mod 256 = B.
Proof.
  intros HA HB l d. unfold d, l. rewrite !sextet by lia. rewrite pack2 by lia.
  change (2 ^ 18) with 262144. change (2 ^ 12) with 4096. change (2 ^ 6) with 64.
  Z.div_mod_to_equations. lia.
Qed.

Lemma EVP_DecodeBlock3 (A B C : Z) :
  0 <= A < 256 -> 0 <= B < 256 -> 0 <= C < 256 ->
  let l := Z.lor (Z.lor (Z.shiftl A 16) (Z.shiftl B 8)) C in
  let d := ((Z.land (Z.shiftr l 18) 0x3f * 64 + Z.land (Z.shiftr l 12) 0x3f) * 64
            + Z.land (Z.shiftr l 6) 0x3f) * 64 + Z.land l 0x3f in
  d / 65536 = A /\ (d / 256) mod 256 = B /\ d mod 256 = C.
Proof.
  intros HA HB HC l d. unfold d.
  replace (Z.land l 0x3f) with (Z.land (Z.shiftr l 0) 0x3f) by now rewrite Z.shiftr_0_r.
  rewrite !sextet by lia. unfold l. rewrite pack3 by lia.
  change (2 ^ 18) with 262144. change (2 ^ 12) with 4096. change (2 ^ 6) with 64.
  change (2 ^ 0) with 1.
  Z.div_mod_to_equations. lia.
Qed.

Lemma base_64_decode_EncodeBlock (x : list ascii) :
  base_64_decode (EVP_EncodeBlock x) = Some x.
Proof.
  induction x as [|a|a b|a b c x IH] using list_ind3.
  - reflexivity.
  - cbn [EVP_EncodeBlock base_64_decode].
    rewrite !conv_ascii2bin_bin2ascii.
    change (is_pad "="%char) with true. cbn [andb].
    rewrite EVP_DecodeBlock1 by apply Z_of_ascii_range.
    now rewrite ascii_of_Z_of_ascii.
  - cbn [EVP_EncodeBlock base_64_decode].
    rewrite !conv_ascii2bin_bin2ascii, is_pad_conv_bin2ascii.
    change (is_pad "="%char) with true. cbn [andb].
    destruct (EVP_DecodeBlock2 (Z_of_ascii a) (Z_of_ascii b)) as [E1 E2];
      try apply Z_of_ascii_range.
    rewrite E1, <- (ascii_of_Z_mod (_ / 4)), E2.
    now rewrite !ascii_of_Z_of_ascii.
  - cbn [EVP_EncodeBlock base_64_decode].
    rewrite !conv_ascii2bin_bin2ascii, !is_pad_conv_bin2ascii, IH. cbn [andb].
    destruct (EVP_DecodeBlock3 (Z_of_ascii a) (Z_of_ascii b) (Z_of_ascii c))
      as (E1 & E2 & E3); try apply Z_of_ascii_range.
    rewrite E1, <- (ascii_of_Z_mod (_ / 256)), E2, <- (ascii_of_Z_mod (_ + _)), E3.
    now rewrite !ascii_of_Z_of_ascii.
Qed.

(** ** The characters of an encoding *)

Lemma EVP_EncodeBlock_chars (x : list ascii) (c : ascii) :
  In c (EVP_EncodeBlock x) -> In c data_bin2ascii \/ c = "="%char.
Proof.
  induction x as [|a|a b|a b d x IH] using list_ind3;
    cbn [EVP_EncodeBlock In]; intros H.
  - contradiction.
  - destruct H as [<-|[<-|[<-|[<-|[]]]]]; auto using conv_bin2ascii_In.
  - destruct H as [<-|[<-|[<-|[<-|[]]]]]; auto using conv_bin2ascii_In.
  - destruct H as [<-|[<-|[<-|[<-|H]]]]; auto using conv_bin2ascii_In.
Qed.

Lemma conv_bin2ascii_not_pad (x : Z) : "="%char <> conv_bin2ascii x.
Proof.
  intros E. pose proof (is_pad_conv_bin2ascii x) as H.
  rewrite <- E in H. discriminate H.
Qed.

Lemma EVP_EncodeBlock_padded (x : list ascii) :
  In "="%char (EVP_EncodeBlock x) <-> (length x mod 3 <> 0)%nat.
Proof.
  induction x as [|a|a b|a b d x IH] using list_ind3.
  - cbn. tauto.
  - cbn [EVP_EncodeBlock In length]. split; [discriminate|auto].
  - cbn [EVP_EncodeBlock In length]. split; [discriminate|auto].
  - change (length (a :: b :: d :: x)) with (3 + length x)%nat.
    replace (3 + length x)%nat with (length x + 1 * 3)%nat by lia.
    rewrite Nat.Div0.mod_add, <- IH.
    cbn [EVP_EncodeBlock In]. split; [|tauto].
    intros [H|[H|[H|[H|H]]]]; [symmetry in H .. | exact H];
      now apply conv_bin2ascii_not_pad in H.
Qed.

(** ** Digest lengths *)

Lemma SHA256_length (data : list ascii) : length (SHA256 data) = 32%nat.
Proof.
  unfold SHA256. rewrite length_map. reflexivity.
Qed.

Lemma EVP_Digest_length (md : EVP_MD) (data : list ascii) :
  Z.of_nat (length (EVP_Digest md data)) = EVP_MD_size md.
Proof.
  destruct md. cbn [EVP_Digest]. now rewrite SHA256_length.
Qed.

Lemma HMAC_Final_length (md : EVP_MD) (ctx : HMAC_CTX) :
  Z.of_nat (length (HMAC_Final md ctx)) = EVP_MD_size md.
Proof.
  apply EVP_Digest_length.
Qed.

Lemma firstn_store (buf data : list ascii) (n : nat) :
  length data = n -> firstn n (store buf data) = data.
Proof.
  intros <-. unfold store.
  rewrite firstn_app, firstn_all, Nat.sub_diag. cbn [firstn]. apply app_nil_r.
Qed.

(** The string [compute_wcs] encodes is the HMAC, whatever [hash] held. *)
Lemma compute_wcs_raw (hash key challenge : list ascii) :
  compute_wcs hash key challenge =
  base_64_encode
    (HMAC_Final EVP_sha256
       (HMAC_Update (HMAC_Init_ex HMAC_CTX_init key (size key) EVP_sha256)
                    challenge (size challenge))).
Proof.
  unfold compute_wcs. rewrite firstn_store; [reflexivity|].
  apply Nat2Z.inj. now rewrite HMAC_Final_length.
Qed.

(** C1: [compute_wcs] is deterministic: for every key and challenge, two
    calls return the same encoded string, whatever the uninitialised array
    [hash] holds at either call; and the raw output that is encoded, and
    that decoding gives back, is exactly 32 bytes long. *)
Theorem compute_wcs_deterministic_32 (key challenge : list ascii) :
  (forall hash hash', compute_wcs hash key challenge = compute_wcs hash' key challenge)
  /\ forall hash, exists raw,
       length raw = 32%nat
       /\ compute_wcs hash key challenge = base_64_encode raw
       /\ base_64_decode (compute_wcs hash key challenge) = Some raw.
Proof.
  split.
  - intros hash hash'. now rewrite !compute_wcs_raw.
  - intros hash. rewrite compute_wcs_raw.
    eexists. split; [|split; [reflexivity|]].
    + apply Nat2Z.inj. now rewrite HMAC_Final_length.
    + rewrite base_64_encode_EncodeBlock. apply base_64_decode_EncodeBlock.
Qed.

(** C4, as the code has it: for every input the encoding contains no
    newline character, and it contains the padding character '=' exactly
    when the input length is not a multiple of 3. *)
Theorem base_64_encode_no_newline_padded (data : list ascii) :
  ~ In "010"%char (base_64_encode data)
  /\ (In "="%char (base_64_encode data) <-> (length data mod 3 <> 0)%nat).
Proof.
  rewrite base_64_encode_EncodeBlock. split.
  - intros H. apply EVP_EncodeBlock_chars in H. destruct H as [H|H].
    + now apply data_bin2ascii_plain in H.
    + discriminate H.
  - apply EVP_EncodeBlock_padded.
Qed.

(** C4 fails as stated: the encoding of a one-byte input, and the
    encoding of a 32-byte digest, contain the padding character '='. *)
Lemma base_64_encode_has_padding :
  In "="%char (base_64_encode (str "a"))
  /\ In "="%char (compute_wcs [] (str "key") (str "challenge")).
Proof.
  split.
  - rewrite base_64_encode_EncodeBlock. apply EVP_EncodeBlock_padded. discriminate.
  - rewrite compute_wcs_raw, base_64_encode_EncodeBlock. apply EVP_EncodeBlock_padded.
    assert (E : forall l : list ascii, length l = 32%nat -> (length l mod 3 <> 0)%nat)
      by (intros l ->; discriminate).
    apply E, Nat2Z.inj. now rewrite HMAC_Final_length.
Qed.

(** C8: encoding what decoding gives back from an encoding yields that
    encoding again, for every byte sequence. *)
Theorem base_64_round_trip (x : list ascii) :
  option_map base_64_encode (base_64_decode (base_64_encode x))
  = Some (base_64_encode x).
Proof.
  rewrite base_64_encode_EncodeBlock at 1.
  now rewrite base_64_decode_EncodeBlock.
Qed.

(** ** PBKDF2 *)

Lemma pbkdf2_rounds_length (n : nat) (tpl : HMAC_CTX) (md : EVP_MD)
    (digtmp p : list ascii) :
  Z.of_nat (length p) <= EVP_MD_size md ->
  length (pbkdf2_rounds n tpl md digtmp p) = length p.
Proof.
  revert digtmp p. induction n as [|n IH]; intros digtmp p Hp; cbn [pbkdf2_rounds].
  - reflexivity.
  - pose proof (HMAC_Final_length md (HMAC_Update tpl digtmp (EVP_MD_size md))) as Hd.
    rewrite IH; rewrite length_map, length_combine; lia.
Qed.

(** With fuel for one turn per output byte the loop runs to its end: it
    appends exactly [tkeylen] bytes. *)
Lemma pbkdf2_blocks_length (fuel : nat) (tpl : HMAC_CTX) (md : EVP_MD)
    (salt : list ascii) (saltlen iter tkeylen i : Z) (out : list ascii) :
  0 <= tkeylen <= Z.of_nat fuel ->
  Z.of_nat (length (pbkdf2_blocks fuel tpl md salt saltlen iter tkeylen i out))
  = Z.of_nat (length out) + tkeylen.
Proof.
  revert tkeylen i out.
  induction fuel as [|fuel IH]; intros tkeylen i out H; cbn [pbkdf2_blocks].
  - replace tkeylen with 0 by lia. cbn. lia.
  - destruct (Z.eqb_spec tkeylen 0) as [->|Hne]; [lia|].
    set (digtmp := HMAC_Final md _).
    pose proof (HMAC_Final_length md
      (HMAC_Update (HMAC_Update tpl salt saltlen)
         (map ascii_of_Z
            [Z.land (Z.shiftr i 24) 255; Z.land (Z.shiftr i 16) 255;
             Z.land (Z.shiftr i 8) 255; Z.land i 255]) 4)) as Hd.
    fold digtmp in Hd.
    set (cplen := if tkeylen >? EVP_MD_size md then EVP_MD_size md else tkeylen).
    assert (Hc : 0 < cplen <= EVP_MD_size md /\ cplen <= tkeylen).
    { unfold cplen, EVP_MD_size. destruct (Z.gtb_spec tkeylen 32); lia. }
    rewrite IH by lia.
    rewrite length_app, pbkdf2_rounds_length; rewrite firstn_length_le; lia.
Qed.

Lemma store_full (buf data : list ascii) :
  length data = length buf -> store buf data = data.
Proof.
  intros E. unfold store. rewrite E, skipn_all. apply app_nil_r.
Qed.

(** The OpenSSL primitive: return code 1 and [keylen] bytes of key. *)
Lemma PKCS5_PBKDF2_HMAC_ok (pass : list ascii) (passlen : Z) (salt : list ascii)
    (saltlen iter keylen : Z) (md : EVP_MD) :
  0 <= keylen ->
  exists key,
    PKCS5_PBKDF2_HMAC pass passlen salt saltlen iter md keylen
                      (repeat zero (Z.to_nat keylen)) = (1, key)
    /\ Z.of_nat (length key) = keylen.
Proof.
  intros H. unfold PKCS5_PBKDF2_HMAC.
  set (tpl := HMAC_Init_ex _ _ _ _).
  pose proof (pbkdf2_blocks_length (Z.to_nat keylen) tpl md salt saltlen iter keylen 1 [])
    as L.
  cbn [length] in L. rewrite Z2Nat.id in L by lia. specialize (L ltac:(lia)).
  eexists. split.
  - rewrite store_full; [reflexivity|]. rewrite repeat_length. lia.
  - lia.
Qed.

(** ** [derive_key] *)

Lemma resize_nil (n : Z) :
  0 <= n <= INT_MAX -> resize [] (to_size_t n) = Return (repeat zero (Z.to_nat n)).
Proof.
  intros H. unfold INT_MAX in H. unfold resize, to_size_t.
  rewrite Z.mod_small by lia.
  destruct (Z.ltb_spec max_size n) as [L|L]; [unfold max_size in L; lia|].
  now rewrite firstn_nil, Nat.sub_0_r.
Qed.

Lemma resize_negative (s : list ascii) (n : Z) :
  INT_MIN <= n < 0 -> resize s (to_size_t n) = Throw length_error.
Proof.
  intros H. unfold INT_MIN in H. unfold resize, to_size_t.
  destruct (Z.ltb_spec max_size (n mod 2 ^ 64)) as [L|L]; [reflexivity|].
  exfalso. unfold max_size in L.
  replace n with (n + 2 ^ 64 + (-1) * 2 ^ 64) in L by lia.
  rewrite Z.mod_add, Z.mod_small in L; lia.
Qed.

Section DeriveKeyFacts.

Variable P : list ascii -> Z -> list ascii -> Z -> Z -> EVP_MD -> Z -> list ascii ->
             Z * list ascii.

(** What [derive_key] does with the outcome of the primitive. *)
Lemma derive_key_cases (passwd salt : list ascii) (iterations keylen : Z) :
  0 <= keylen <= INT_MAX ->
  derive_key P passwd salt iterations keylen =
  let r := P passwd (size passwd) salt (size salt) iterations EVP_sha256 keylen
             (repeat zero (Z.to_nat keylen)) in
  if fst r =? 0 then Throw derived_key_error else Return (base_64_encode (snd r)).
Proof.
  intros H. unfold derive_key. rewrite resize_nil by assumption.
  cbv zeta. destruct (P _ _ _ _ _ _ _ _) as [rc out]. cbn [fst snd].
  now destruct (rc =? 0).
Qed.

End DeriveKeyFacts.

(** With the OpenSSL primitive a call with a key length that is not
    negative returns the encoding of [keylen] bytes. *)
Lemma derive_key_returns (passwd salt : list ascii) (iterations keylen : Z) :
  0 <= keylen <= INT_MAX ->
  exists raw,
    Z.of_nat (length raw) = keylen
    /\ derive_key PKCS5_PBKDF2_HMAC passwd salt iterations keylen
       = Return (base_64_encode raw).
Proof.
  intros H. rewrite derive_key_cases by assumption.
  destruct (PKCS5_PBKDF2_HMAC_ok passwd (size passwd) salt (size salt) iterations
              keylen EVP_sha256) as (key & E & L); [lia|].
  rewrite E. cbn [fst snd Z.eqb]. now exists key.
Qed.

(** C2: for every secret, salt, iteration count above 0 and key length
    above 0 (an [int]), two calls of [derive_key] with identical arguments
    yield identical output, which is an encoded key and not an exception. *)
Theorem derive_key_deterministic
    (passwd salt passwd' salt' : list ascii) (iterations keylen iterations' keylen' : Z) :
  0 < iterations -> 0 < keylen <= INT_MAX ->
  passwd = passwd' -> salt = salt' -> iterations = iterations' -> keylen = keylen' ->
  derive_key PKCS5_PBKDF2_HMAC passwd salt iterations keylen
  = derive_key PKCS5_PBKDF2_HMAC passwd' salt' iterations' keylen'
  /\ exists key,
       derive_key PKCS5_PBKDF2_HMAC passwd salt iterations keylen = Return key.
Proof.
  intros _ Hk <- <- <- <-. split; [reflexivity|].
  destruct (derive_key_returns passwd salt iterations keylen) as (raw & _ & E); [lia|].
  now exists (base_64_encode raw).
Qed.

Lemma derive_key_deterministic_witness :
  derive_key PKCS5_PBKDF2_HMAC (str "secret123") (str "salt-abc") 1000 32
  = derive_key PKCS5_PBKDF2_HMAC (str "secret123") (str "salt-abc") 1000 32
  /\ exists key,
       derive_key PKCS5_PBKDF2_HMAC (str "secret123") (str "salt-abc") 1000 32
       = Return key.
Proof.
  apply (derive_key_deterministic (str "secret123") (str "salt-abc")
           (str "secret123") (str "salt-abc") 1000 32 1000 32);
    [lia | unfold INT_MAX; lia | reflexivity ..].
Defined.

(** C3, as the code has it: for a key length that is not negative,
    [derive_key] returns the encoded key exactly when the primitive returns
    a code other than zero, and throws [derived_key_error] exactly when it
    returns zero; nothing else makes it throw. *)
Theorem derive_key_succeeds_iff_nonzero
    (P : list ascii -> Z -> list ascii -> Z -> Z -> EVP_MD -> Z -> list ascii ->
         Z * list ascii)
    (passwd salt : list ascii) (iterations keylen : Z) :
  0 <= keylen <= INT_MAX ->
  let r := P passwd (size passwd) salt (size salt) iterations EVP_sha256 keylen
             (repeat zero (Z.to_nat keylen)) in
  (fst r <> 0 <->
   derive_key P passwd salt iterations keylen = Return (base_64_encode (snd r)))
  /\ (fst r = 0 <->
      derive_key P passwd salt iterations keylen = Throw derived_key_error)
  /\ (forall e, derive_key P passwd salt iterations keylen = Throw e ->
                e = derived_key_error /\ fst r = 0).
Proof.
  intros H r. rewrite derive_key_cases by assumption. cbv zeta. fold r.
  destruct (Z.eqb_spec (fst r) 0) as [E|E].
  - split; [split; [intros N; contradiction | discriminate]|].
    split; [split; auto|]. intros e [= <-]. auto.
  - split; [split; auto|].
    split; [split; [intros N; contradiction | discriminate]|].
    intros e. discriminate.
Qed.

Lemma derive_key_succeeds_iff_nonzero_witness :
  let r := PKCS5_PBKDF2_HMAC (str "pw") 2 (str "salt") 4 1 EVP_sha256 3
             (repeat zero 3) in
  (fst r <> 0 <->
   derive_key PKCS5_PBKDF2_HMAC (str "pw") (str "salt") 1 3
   = Return (base_64_encode (snd r)))
  /\ (fst r = 0 <->
      derive_key PKCS5_PBKDF2_HMAC (str "pw") (str "salt") 1 3
      = Throw derived_key_error)
  /\ (forall e, derive_key PKCS5_PBKDF2_HMAC (str "pw") (str "salt") 1 3 = Throw e ->
                e = derived_key_error /\ fst r = 0).
Proof.
  apply (derive_key_succeeds_iff_nonzero PKCS5_PBKDF2_HMAC (str "pw") (str "salt") 1 3).
  unfold INT_MAX. lia.
Defined.

(** C3 fails as stated: here the primitive returns 1, not zero, and
    [derive_key] returns the key. *)
Lemma derive_key_success_on_zero_counterexample :
  let rc := fst (PKCS5_PBKDF2_HMAC (str "secret123") 9 (str "salt-abc") 8 2
                   EVP_sha256 32 (repeat zero 32)) in
  rc = 1
  /\ derive_key PKCS5_PBKDF2_HMAC (str "secret123") (str "salt-abc") 2 32
     = Return (str "E11sCWgH+Bk9IFwO+DiPecFZBs+8smI9IPWNTBKDeEo=")
  /\ ~ ((exists key, derive_key PKCS5_PBKDF2_HMAC (str "secret123") (str "salt-abc") 2 32
                     = Return key) <-> rc = 0).
Proof.
  assert (E : derive_key PKCS5_PBKDF2_HMAC (str "secret123") (str "salt-abc") 2 32
              = Return (str "E11sCWgH+Bk9IFwO+DiPecFZBs+8smI9IPWNTBKDeEo="))
    by (vm_compute; reflexivity).
  cbv zeta. split; [reflexivity|]. split; [exact E|].
  intros [H _]. cbn [PKCS5_PBKDF2_HMAC fst] in H.
  assert (F : 1 = 0) by (apply H; eexists; exact E). discriminate F.
Qed.

(** C7, as the code has it: [derive_key] makes no check of its own on
    either argument.  A negative key length (an [int]) is rejected, by the
    [std::length_error] of [resize], before the primitive is called.  A key
    length that is not negative, zero included, goes to the primitive
    together with the iteration count, positive or not, unchecked: the
    call fails, with [derived_key_error], exactly when the primitive
    returns zero, and returns the encoding of the output buffer otherwise.
    This holds whatever the primitive is; what a non-positive iteration
    count leads to is the primitive's decision. *)
Theorem derive_key_arguments_unchecked
    (P : list ascii -> Z -> list ascii -> Z -> Z -> EVP_MD -> Z -> list ascii ->
         Z * list ascii)
    (passwd salt : list ascii) (iterations keylen : Z) :
  INT_MIN <= keylen <= INT_MAX ->
  let r := P passwd (size passwd) salt (size salt) iterations EVP_sha256 keylen
             (repeat zero (Z.to_nat keylen)) in
  derive_key P passwd salt iterations keylen
  = if keylen <? 0 then Throw length_error
    else if fst r =? 0 then Throw derived_key_error
    else Return (base_64_encode (snd r)).
Proof.
  intros H r. destruct (Z.ltb_spec keylen 0) as [L|L].
  - unfold derive_key. now rewrite resize_negative by lia.
  - rewrite derive_key_cases by lia. reflexivity.
Qed.

Lemma derive_key_arguments_unchecked_witness :
  derive_key PKCS5_PBKDF2_HMAC (str "secret123") (str "salt-abc") 1000 0 = Return []
  /\ derive_key PKCS5_PBKDF2_HMAC (str "secret123") (str "salt-abc") 1000 (-1)
     = Throw length_error
  /\ derive_key (fun _ _ _ _ _ _ _ out => (0, out)) (str "secret123") (str "salt-abc") 0 32
     = Throw derived_key_error.
Proof.
  split; [|split].
  - pose proof (derive_key_arguments_unchecked PKCS5_PBKDF2_HMAC
                  (str "secret123") (str "salt-abc") 1000 0) as E.
    cbv zeta in E. rewrite E by (unfold INT_MIN, INT_MAX; lia). reflexivity.
  - pose proof (derive_key_arguments_unchecked PKCS5_PBKDF2_HMAC
                  (str "secret123") (str "salt-abc") 1000 (-1)) as E.
    cbv zeta in E. rewrite E by (unfold INT_MIN, INT_MAX; lia). reflexivity.
  - pose proof (derive_key_arguments_unchecked (fun _ _ _ _ _ _ _ out => (0, out))
                  (str "secret123") (str "salt-abc") 0 32) as E.
    cbv zeta in E. rewrite E by (unfold INT_MIN, INT_MAX; lia). reflexivity.
Defined.

(** C7 fails as stated: with a key length of 0, which is not positive,
    [derive_key] returns the empty string instead of rejecting the call. *)
Lemma derive_key_accepts_zero_key_length :
  derive_key PKCS5_PBKDF2_HMAC (str "secret123") (str "salt-abc") 1000 0 = Return [].
Proof.
  vm_compute. reflexivity.
Qed.

(** ** [generate_wcs] *)

(** The selectable characters are 62 distinct letters and digits. *)
Lemma wcs_alphabet_62 :
  length wcs_alphabet = 62%nat /\ NoDup wcs_alphabet
  /\ Forall (fun c => alphanumeric c = true) wcs_alphabet.
Proof.
  split; [reflexivity|]. split.
  - apply NoDup_count_occ with (decA := ascii_dec). intros c.
    destruct (in_dec ascii_dec c wcs_alphabet) as [Hc|Hc].
    + vm_compute in Hc.
      repeat (destruct Hc as [<-|Hc]; [vm_compute; lia|]). contradiction.
    + apply (count_occ_not_In ascii_dec) in Hc. lia.
  - apply Forall_forall. intros c Hc. vm_compute in Hc.
    repeat (destruct Hc as [<-|Hc]; [reflexivity|]). contradiction.
Qed.

Lemma wcs_index_range (r : Z) : 0 <= wcs_index r < 62.
Proof.
  unfold wcs_index. change (sizeof_WCS_SECRET_CHARSET - 1) with 62.
  apply Z.mod_pos_bound. reflexivity.
Qed.

Lemma wcs_char_In (r : Z) : In (wcs_char r) wcs_alphabet.
Proof.
  unfold wcs_char. pose proof (wcs_index_range r) as H.
  change WCS_SECRET_CHARSET with (wcs_alphabet ++ [zero]).
  rewrite app_nth1 by (change (length wcs_alphabet) with 62%nat; lia).
  apply nth_In. change (length wcs_alphabet) with 62%nat. lia.
Qed.

Section GenerateWcsFacts.

Context {rand_state : Type} (rand : rand_state -> Z * rand_state).

Lemma generate_wcs_loop_length (n : nat) (s : list ascii) (st : rand_state) :
  length (fst (generate_wcs_loop rand n s st)) = (length s + n)%nat.
Proof.
  revert s st. induction n as [|n IH]; intros s st; cbn [generate_wcs_loop].
  - cbn. lia.
  - destruct (rand st) as [r st']. rewrite IH, length_app. cbn. lia.
Qed.

Lemma generate_wcs_loop_chars (n : nat) (s : list ascii) (st : rand_state) :
  Forall (fun c => In c wcs_alphabet) s ->
  Forall (fun c => In c wcs_alphabet) (fst (generate_wcs_loop rand n s st)).
Proof.
  revert s st. induction n as [|n IH]; intros s st Hs; cbn [generate_wcs_loop].
  - exact Hs.
  - destruct (rand st) as [r st']. apply IH.
    apply Forall_app. split; [exact Hs|].
    constructor; [apply wcs_char_In | constructor].
Qed.

End GenerateWcsFacts.

(** C5, as the code has it: for every length that is not negative,
    [generate_wcs(length)] returns a string of exactly [length] characters,
    each one of the 62 distinct upper-case letters, lower-case letters and
    digits of the alphabet; without an argument the length is 14. *)
Theorem generate_wcs_length_alphabet
    (rand_state : Type) (rand : rand_state -> Z * rand_state)
    (length : Z) (st : rand_state) :
  0 <= length ->
  size (fst (generate_wcs rand length st)) = length
  /\ Forall (fun c => In c wcs_alphabet /\ alphanumeric c = true)
            (fst (generate_wcs rand length st))
  /\ List.length wcs_alphabet = 62%nat
  /\ generate_wcs_default rand st = generate_wcs rand 14 st
  /\ size (fst (generate_wcs_default rand st)) = 14.
Proof.
  intros H.
  assert (L : forall n, 0 <= n -> size (fst (generate_wcs rand n st)) = n).
  { intros n Hn. unfold size, generate_wcs.
    rewrite generate_wcs_loop_length. cbn [List.length]. lia. }
  split; [now apply L|]. split; [|split; [reflexivity|split; [reflexivity|]]].
  - unfold generate_wcs.
    pose proof (generate_wcs_loop_chars rand (Z.to_nat length) [] st (Forall_nil _)) as F.
    destruct wcs_alphabet_62 as (_ & _ & A).
    rewrite Forall_forall in F, A. apply Forall_forall. intros c Hc. auto.
  - apply L. lia.
Qed.

Lemma generate_wcs_length_alphabet_witness :
  size (fst (generate_wcs c_rand 14 1)) = 14
  /\ Forall (fun c => In c wcs_alphabet /\ alphanumeric c = true)
            (fst (generate_wcs c_rand 14 1))
  /\ List.length wcs_alphabet = 62%nat
  /\ generate_wcs_default c_rand 1 = generate_wcs c_rand 14 1
  /\ size (fst (generate_wcs_default c_rand 1)) = 14.
Proof.
  apply (generate_wcs_length_alphabet Z c_rand 14 1). lia.
Defined.

(** C5 fails as stated for a negative length: the string returned for
    -1 is empty, so it does not have -1 characters. *)
Lemma generate_wcs_negative_length :
  fst (generate_wcs c_rand (-1) 1) = [] /\ size (fst (generate_wcs c_rand (-1) 1)) <> -1.
Proof.
  split; [reflexivity | discriminate].
Qed.

(** C10: for every length less than or equal to zero, [generate_wcs]
    returns the empty string, and leaves the generator as it was. *)
Theorem generate_wcs_nonpositive
    (rand_state : Type) (rand : rand_state -> Z * rand_state)
    (length : Z) (st : rand_state) :
  length <= 0 -> generate_wcs rand length st = ([], st).
Proof.
  intros H. unfold generate_wcs.
  replace (Z.to_nat length) with 0%nat by lia. reflexivity.
Qed.

Lemma generate_wcs_nonpositive_witness :
  generate_wcs c_rand (-3) 1 = ([], 1) /\ generate_wcs c_rand 0 1 = ([], 1).
Proof.
  split.
  - apply (generate_wcs_nonpositive Z c_rand (-3) 1). lia.
  - apply (generate_wcs_nonpositive Z c_rand 0 1). lia.
Defined.

(** ** How many values of [rand()] select each character *)

Lemma count_from_snoc (n : nat) (r0 i : Z) :
  count_from (S n) r0 i
  = count_from n r0 i + (if wcs_index (r0 + Z.of_nat n) =? i then 1 else 0).
Proof.
  revert r0. induction n as [|n IH]; intros r0.
  - cbn [count_from Z.of_nat]. now rewrite !Z.add_0_r, Z.add_0_l.
  - change (count_from (S (S n)) r0 i)
      with ((if wcs_index r0 =? i then 1 else 0) + count_from (S n) (r0 + 1) i).
    rewrite IH. cbn [count_from].
    replace (r0 + 1 + Z.of_nat n) with (r0 + Z.of_nat (S n)) by lia.
    apply Z.add_assoc.
Qed.

Lemma wcs_index_small (r : Z) : 0 <= r < 2 ^ 64 -> wcs_index r = r mod 62.
Proof.
  intros H. unfold wcs_index, to_size_t.
  change (sizeof_WCS_SECRET_CHARSET - 1) with 62.
  now rewrite (Z.mod_small r (2 ^ 64)).
Qed.

Lemma count_from_0 (n : nat) (i : Z) :
  Z.of_nat n <= 2 ^ 64 -> 0 <= i < 62 ->
  count_from n 0 i = Z.of_nat n / 62 + (if i <? Z.of_nat n mod 62 then 1 else 0).
Proof.
  intros Hn Hi. induction n as [|n IH].
  - cbn [count_from Z.of_nat]. change (0 / 62) with 0. change (0 mod 62) with 0.
    destruct (Z.ltb_spec i 0); lia.
  - rewrite count_from_snoc, IH by lia. rewrite Z.add_0_l, wcs_index_small by lia.
    rewrite Nat2Z.inj_succ. unfold Z.succ.
    set (N := Z.of_nat n).
    destruct (Z.ltb_spec i (N mod 62)), (Z.eqb_spec (N mod 62) i),
             (Z.ltb_spec i ((N + 1) mod 62));
      Z.div_mod_to_equations; lia.
Qed.

Lemma raw_count_formula (RAND_MAX i : Z) :
  0 <= RAND_MAX <= INT_MAX -> 0 <= i < 62 ->
  raw_count RAND_MAX i
  = (RAND_MAX + 1) / 62 + (if i <? (RAND_MAX + 1) mod 62 then 1 else 0).
Proof.
  intros H Hi. unfold INT_MAX in H. unfold raw_count.
  rewrite count_from_0 by lia. now rewrite Z2Nat.id by lia.
Qed.

(** C6, as the code has it: of the [RAND_MAX + 1] values [rand()] can
    return, each character is selected by [(RAND_MAX + 1) / 62] of them,
    and the first [(RAND_MAX + 1) mod 62] characters of the alphabet by one
    more; so the counts of two characters differ by at most one, and they
    are all the same only where 62 divides [RAND_MAX + 1]. *)
Theorem raw_count_nearly_uniform (RAND_MAX i j : Z) :
  0 <= RAND_MAX <= INT_MAX -> 0 <= i < 62 -> 0 <= j < 62 ->
  raw_count RAND_MAX i
  = (RAND_MAX + 1) / 62 + (if i <? (RAND_MAX + 1) mod 62 then 1 else 0)
  /\ -1 <= raw_count RAND_MAX i - raw_count RAND_MAX j <= 1
  /\ ((RAND_MAX + 1) mod 62 = 0 -> raw_count RAND_MAX i = raw_count RAND_MAX j)
  /\ ((RAND_MAX + 1) mod 62 <> 0 ->
      raw_count RAND_MAX 0 = raw_count RAND_MAX 61 + 1).
Proof.
  intros H Hi Hj.
  rewrite !raw_count_formula by lia.
  pose proof (Z.mod_pos_bound (RAND_MAX + 1) 62 eq_refl) as B.
  repeat split.
  - destruct (Z.ltb_spec i ((RAND_MAX + 1) mod 62)),
             (Z.ltb_spec j ((RAND_MAX + 1) mod 62)); lia.
  - destruct (Z.ltb_spec i ((RAND_MAX + 1) mod 62)),
             (Z.ltb_spec j ((RAND_MAX + 1) mod 62)); lia.
  - intros E. rewrite E.
    destruct (Z.ltb_spec i 0), (Z.ltb_spec j 0); lia.
  - intros E.
    destruct (Z.ltb_spec 0 ((RAND_MAX + 1) mod 62)),
             (Z.ltb_spec 61 ((RAND_MAX + 1) mod 62)); lia.
Qed.

Lemma raw_count_nearly_uniform_witness :
  raw_count 32767 0 = (32767 + 1) / 62 + (if 0 <? (32767 + 1) mod 62 then 1 else 0)
  /\ -1 <= raw_count 32767 0 - raw_count 32767 61 <= 1
  /\ ((32767 + 1) mod 62 = 0 -> raw_count 32767 0 = raw_count 32767 61)
  /\ ((32767 + 1) mod 62 <> 0 -> raw_count 32767 0 = raw_count 32767 61 + 1).
Proof.
  apply (raw_count_nearly_uniform 32767 0 61); unfold INT_MAX; lia.
Defined.

(** C6 fails as stated: with the [RAND_MAX] of glibc, 2147483647, the
    characters 'A' and 'B' are each selected by 34636834 values and every
    other character by 34636833; with the least [RAND_MAX] the C standard
    allows, 32767, the first 32 characters are selected by 529 values each
    and the other 30 by 528. *)
Lemma raw_count_not_uniform :
  raw_count 2147483647 0 = 34636834 /\ raw_count 2147483647 1 = 34636834
  /\ raw_count 2147483647 2 = 34636833 /\ raw_count 2147483647 61 = 34636833
  /\ raw_count 32767 31 = 529 /\ raw_count 32767 32 = 528
  /\ raw_count 2147483647 0 <> raw_count 2147483647 61.
Proof.
  rewrite !raw_count_formula by (unfold INT_MAX; lia).
  repeat split; discriminate.
Qed.

(** ** Transport: the handler slot *)

(** The reference transport satisfies the contract. *)
Lemma reference_transport_contract (handler : Type) :
  Transport.contract (Transport.reference_transport handler)
                     (Transport.m_handler handler).
Proof.
  split.
  - intros [[h0|]]; cbn; split; intros H; congruence.
  - intros h [[h0|]]; cbn; intros E; [discriminate E | split; reflexivity].
  - intros h [[h1|]] h0; cbn; intros E; [split; [reflexivity | exact E] | discriminate E].
  - intros t. reflexivity.
Qed.

(** The contract is not empty talk: the transport that replaces its
    handler implements the interface and satisfies no instance of it. *)
Lemma replacing_transport_breaks_contract (handler : Type) (h : handler)
    (attached : Transport.transport handler -> option handler) :
  ~ Transport.contract (Transport.replacing_transport handler) attached.
Proof.
  intros C. set (t := Transport.mktransport handler (Some h)).
  assert (A : attached t <> None)
    by (apply (Transport.has_handler_reports _ _ C); reflexivity).
  destruct (attached t) as [h0|] eqn:E; [|congruence].
  destruct (Transport.attach_attached _ _ C h t h0 E) as [F _].
  discriminate F.
Qed.

Section ContractFacts.

Context {handler T : Type} (impl : Transport.wamp_transport handler T)
        (attached : T -> option handler) (C : Transport.contract impl attached).

Lemma has_handler_attached (t : T) (h0 : handler) :
  attached t = Some h0 -> Transport.has_handler t = true.
Proof.
  intros E. apply (Transport.has_handler_reports _ _ C). congruence.
Qed.

Lemma attach_attaches (h : handler) (t : T) :
  exists h0, attached (snd (Transport.attach h t)) = Some h0.
Proof.
  destruct (attached t) as [h0|] eqn:E.
  - exists h0. now apply (Transport.attach_attached _ _ C).
  - exists h. now apply (Transport.attach_installs _ _ C).
Qed.

(** While no [detach] intervenes, an attached handler stays and every
    further [attach] is refused. *)
Lemma attach_all_attached (hs : list handler) (t : T) (h0 : handler) :
  attached t = Some h0 ->
  Forall (eq Transport.contract_violation) (fst (Transport.attach_all impl hs t))
  /\ attached (snd (Transport.attach_all impl hs t)) = Some h0.
Proof.
  revert t. induction hs as [|h hs IH]; intros t E; cbn [Transport.attach_all].
  - split; [constructor | exact E].
  - destruct (Transport.attach_attached _ _ C h t h0 E) as [F A].
    destruct (Transport.attach h t) as [o t'] eqn:Et. cbn [fst snd] in F, A.
    destruct (IH t' A) as [F' A'].
    destruct (Transport.attach_all impl hs t') as [os t'']. cbn [fst snd] in *.
    split; [constructor; [now symmetry | exact F'] | exact A'].
Qed.

End ContractFacts.

(** C9: for every implementation of the interface that satisfies the
    contract of handler attachment: [has_handler] is true after [attach],
    whether the call was accepted or refused, and false after [detach];
    and after an [attach], as long as no [detach] intervenes, every further
    [attach] is rejected as a contract violation and the attached handler
    is the one it was. *)
Theorem contract_attach_detach_has_handler
    (handler T : Type) (impl : Transport.wamp_transport handler T)
    (attached : T -> option handler) (h : handler) (t : T) :
  Transport.contract impl attached ->
  Transport.has_handler (snd (Transport.attach h t)) = true
  /\ Transport.has_handler (Transport.detach t) = false
  /\ forall hs : list handler,
       let after := snd (Transport.attach h t) in
       Forall (eq Transport.contract_violation)
              (fst (Transport.attach_all impl hs after))
       /\ attached (snd (Transport.attach_all impl hs after)) = attached after
       /\ Transport.has_handler (snd (Transport.attach_all impl hs after)) = true.
Proof.
  intros C. destruct (attach_attaches impl attached C h t) as [h0 A].
  split; [|split].
  - exact (has_handler_attached impl attached C _ h0 A).
  - destruct (Transport.has_handler (Transport.detach t)) eqn:E; [|reflexivity].
    apply (Transport.has_handler_reports _ _ C) in E.
    now rewrite (Transport.detach_removes _ _ C) in E.
  - intros hs after.
    destruct (attach_all_attached impl attached C hs after h0 A) as [F A'].
    split; [exact F|]. split.
    + unfold after at 2. now rewrite A, A'.
    + exact (has_handler_attached impl attached C _ h0 A').
Qed.

Lemma contract_attach_detach_has_handler_witness :
  let impl := Transport.reference_transport nat in
  let t := Transport.mktransport nat None in
  Transport.has_handler (snd (Transport.attach 7%nat t)) = true
  /\ Transport.has_handler (Transport.detach (handler := nat) t) = false
  /\ forall hs : list nat,
       let after := snd (Transport.attach 7%nat t) in
       Forall (eq Transport.contract_violation)
              (fst (Transport.attach_all impl hs after))
       /\ Transport.m_handler nat (snd (Transport.attach_all impl hs after))
          = Transport.m_handler nat after
       /\ Transport.has_handler (snd (Transport.attach_all impl hs after)) = true.
Proof.
  exact (contract_attach_detach_has_handler nat (Transport.transport nat)
           (Transport.reference_transport nat) (Transport.m_handler nat)
           7%nat (Transport.mktransport nat None)
           (reference_transport_contract nat)).
Defined.

(** * Further properties of the header *)

(** ** The shape of an encoding *)

Lemma EVP_EncodeBlock_length (x : list ascii) :
  size (EVP_EncodeBlock x) = 4 * ((size x + 2) / 3).
Proof.
  unfold size. induction x as [|a|a b|a b c x IH] using list_ind3.
  - reflexivity.
  - reflexivity.
  - reflexivity.
  - cbn [EVP_EncodeBlock]. cbn [length]. rewrite !Nat2Z.inj_succ, IH.
    unfold Z.succ. Z.div_mod_to_equations. lia.
Qed.

(** X1: the encoding of [n] bytes has [4 * ceil(n / 3)] characters; in
    particular it is empty only for the empty input. *)
Theorem base_64_encode_length (data : list ascii) :
  size (base_64_encode data) = 4 * ((size data + 2) / 3)
  /\ (base_64_encode data = [] <-> data = []).
Proof.
  rewrite base_64_encode_EncodeBlock. split; [apply EVP_EncodeBlock_length|].
  split; intros E.
  - destruct data as [|a [|b [|c data]]]; [reflexivity | discriminate E ..].
  - now subst.
Qed.

(** X2: the encoding is injective: two byte sequences have the same
    encoding only if they are the same. *)
Theorem base_64_encode_injective (x y : list ascii) :
  base_64_encode x = base_64_encode y <-> x = y.
Proof.
  split; [|intros ->; reflexivity].
  rewrite !base_64_encode_EncodeBlock. intros E.
  apply (f_equal base_64_decode) in E.
  rewrite !base_64_decode_EncodeBlock in E. now injection E.
Qed.

Lemma EVP_EncodeBlock_shape (x : list ascii) :
  exists body,
    EVP_EncodeBlock x = body ++ repeat "="%char ((3 - length x mod 3) mod 3)
    /\ Forall (fun c => In c data_bin2ascii) body.
Proof.
  induction x as [|a|a b|a b c x IH] using list_ind3.
  - exists []. split; [reflexivity | constructor].
  - eexists [_; _]. split; [reflexivity|].
    repeat (constructor; [apply conv_bin2ascii_In|]). constructor.
  - eexists [_; _; _]. split; [reflexivity|].
    repeat (constructor; [apply conv_bin2ascii_In|]). constructor.
  - destruct IH as (body & E & F).
    change (length (a :: b :: c :: x)) with (3 + length x)%nat.
    replace (3 + length x)%nat with (length x + 1 * 3)%nat by lia.
    rewrite Nat.Div0.mod_add. cbn [EVP_EncodeBlock]. rewrite E.
    eexists (_ :: _ :: _ :: _ :: body). split; [reflexivity|].
    repeat (constructor; [apply conv_bin2ascii_In|]). exact F.
Qed.

(** X3: an encoding is a run of characters of the 64-character alphabet
    followed by the padding: no '=' for an input length that is a multiple
    of 3, two for a remainder of 1, one for a remainder of 2. *)
Theorem base_64_encode_shape (data : list ascii) :
  exists body,
    base_64_encode data
    = body ++ repeat "="%char ((3 - length data mod 3) mod 3)
    /\ Forall (fun c => In c data_bin2ascii) body.
Proof.
  rewrite base_64_encode_EncodeBlock. apply EVP_EncodeBlock_shape.
Qed.

(** X4: encoding distributes over concatenation when the first part is
    a whole number of three-byte groups. *)
Theorem base_64_encode_app (a b : list ascii) :
  (length a mod 3 = 0)%nat ->
  base_64_encode (a ++ b) = base_64_encode a ++ base_64_encode b.
Proof.
  intros H. rewrite !base_64_encode_EncodeBlock. now apply EVP_EncodeBlock_app.
Qed.

Lemma base_64_encode_app_witness :
  base_64_encode (str "foo" ++ str "ba") = base_64_encode (str "foo") ++ base_64_encode (str "ba").
Proof.
  apply (base_64_encode_app (str "foo") (str "ba")). reflexivity.
Defined.

(** ** [compute_wcs] *)

(** X5: for every key and challenge the digest string has 44 characters:
    43 characters of the alphabet and one '=' at the end. *)
Theorem compute_wcs_shape (hash key challenge : list ascii) :
  exists body,
    compute_wcs hash key challenge = body ++ ["="%char]
    /\ length body = 43%nat
    /\ Forall (fun c => In c data_bin2ascii) body.
Proof.
  rewrite compute_wcs_raw. set (raw := HMAC_Final _ _).
  assert (L : length raw = 32%nat)
    by (apply Nat2Z.inj; unfold raw; now rewrite HMAC_Final_length).
  destruct (base_64_encode_shape raw) as (body & E & F).
  pose proof (base_64_encode_length raw) as [N _].
  unfold size in N. rewrite E, L in N. rewrite L in E.
  change ((3 - 32 mod 3) mod 3)%nat with 1%nat in *. cbn [repeat] in *.
  exists body. split; [exact E|]. split; [|exact F].
  rewrite length_app in N. cbn [length] in N.
  change (4 * ((Z.of_nat 32 + 2) / 3)) with 44 in N. lia.
Qed.

Lemma HMAC_Init_ex_zeros (ctx : HMAC_CTX) (key : list ascii) (n : nat) (md : EVP_MD) :
  size key + Z.of_nat n <= EVP_MD_block_size md ->
  HMAC_Init_ex ctx (key ++ repeat zero n) (size (key ++ repeat zero n)) md
  = HMAC_Init_ex ctx key (size key) md.
Proof.
  unfold EVP_MD_block_size, size. intros H. unfold HMAC_Init_ex, EVP_MD_block_size.
  rewrite !Nat2Z.id, !firstn_all.
  destruct (Z.ltb_spec 64 (Z.of_nat (length (key ++ repeat zero n)))) as [L|_];
    [rewrite length_app, repeat_length in L; lia|].
  destruct (Z.ltb_spec 64 (Z.of_nat (length key))) as [L|_]; [lia|].
  assert (E : (key ++ repeat zero n)
              ++ repeat zero (Z.to_nat HMAC_MAX_MD_CBLOCK - length (key ++ repeat zero n))
              = key ++ repeat zero (Z.to_nat HMAC_MAX_MD_CBLOCK - length key)).
  { rewrite <- app_assoc, <- repeat_app, length_app, repeat_length.
    do 2 f_equal. unfold HMAC_MAX_MD_CBLOCK. lia. }
  now rewrite E.
Qed.

Lemma HMAC_Init_ex_long (ctx : HMAC_CTX) (key : list ascii) (md : EVP_MD) :
  EVP_MD_block_size md < size key ->
  HMAC_Init_ex ctx key (size key) md
  = HMAC_Init_ex ctx (EVP_Digest md key) (size (EVP_Digest md key)) md.
Proof.
  unfold size. intros H. unfold HMAC_Init_ex.
  rewrite EVP_Digest_length, !Nat2Z.id, !firstn_all.
  destruct (Z.ltb_spec (EVP_MD_block_size md) (Z.of_nat (length key))) as [_|L]; [|lia].
  now destruct md.
Qed.

(** X6: [compute_wcs] does not tell a key of at most 64 bytes from the
    same key with zero bytes appended, up to 64 bytes in all: both give the
    same digest for every challenge. *)
Theorem compute_wcs_key_zero_padding
    (hash key challenge : list ascii) (n : nat) :
  size key + Z.of_nat n <= 64 ->
  compute_wcs hash (key ++ repeat zero n) challenge = compute_wcs hash key challenge.
Proof.
  intros H. unfold compute_wcs. now rewrite HMAC_Init_ex_zeros.
Qed.

Lemma compute_wcs_key_zero_padding_witness :
  compute_wcs [] (str "key" ++ repeat zero 2) (str "challenge")
  = compute_wcs [] (str "key") (str "challenge").
Proof.
  apply (compute_wcs_key_zero_padding [] (str "key") (str "challenge") 2).
  vm_compute. discriminate.
Defined.

(** X7: a key longer than 64 bytes gives the same digest, for every
    challenge, as its 32-byte SHA-256 hash used as the key. *)
Theorem compute_wcs_long_key (hash key challenge : list ascii) :
  64 < size key ->
  compute_wcs hash key challenge = compute_wcs hash (SHA256 key) challenge.
Proof.
  intros H. unfold compute_wcs.
  now rewrite (HMAC_Init_ex_long HMAC_CTX_init key EVP_sha256).
Qed.

Lemma compute_wcs_long_key_witness :
  compute_wcs [] (repeat "k"%char 65) (str "challenge")
  = compute_wcs [] (SHA256 (repeat "k"%char 65)) (str "challenge").
Proof.
  apply (compute_wcs_long_key [] (repeat "k"%char 65) (str "challenge")).
  vm_compute. reflexivity.
Defined.

(** ** [derive_key] *)

(** X8: whatever the key-stretching primitive does, a string that
    [derive_key] returns is text: its length is a multiple of 4, each of its
    characters is one of the 64 of the alphabet or '=', and none is a
    newline. *)
Theorem derive_key_returns_text
    (P : list ascii -> Z -> list ascii -> Z -> Z -> EVP_MD -> Z -> list ascii ->
         Z * list ascii)
    (passwd salt : list ascii) (iterations keylen : Z) (key : list ascii) :
  derive_key P passwd salt iterations keylen = Return key ->
  size key mod 4 = 0
  /\ Forall (fun c => In c data_bin2ascii \/ c = "="%char) key
  /\ ~ In "010"%char key.
Proof.
  unfold derive_key. destruct (resize [] (to_size_t keylen)) as [buf|e]; [|discriminate].
  destruct (P _ _ _ _ _ _ _ _) as [rc out].
  destruct (negb (rc =? 0)); [|discriminate].
  intros [= <-]. rewrite base_64_encode_EncodeBlock.
  split; [|split].
  - rewrite EVP_EncodeBlock_length, Z.mul_comm. apply Z.mod_mul. discriminate.
  - apply Forall_forall. intros c. apply EVP_EncodeBlock_chars.
  - intros H. apply EVP_EncodeBlock_chars in H. destruct H as [H|H].
    + now apply data_bin2ascii_plain in H.
    + discriminate H.
Qed.

Lemma derive_key_returns_text_witness :
  size (str "5A5luqorNKehK1CvfWNbJ+HqCc0bETVbcJ8kvYDIaCY=") mod 4 = 0
  /\ Forall (fun c => In c data_bin2ascii \/ c = "="%char)
            (str "5A5luqorNKehK1CvfWNbJ+HqCc0bETVbcJ8kvYDIaCY=")
  /\ ~ In "010"%char (str "5A5luqorNKehK1CvfWNbJ+HqCc0bETVbcJ8kvYDIaCY=").
Proof.
  apply (derive_key_returns_text PKCS5_PBKDF2_HMAC (str "secret123") (str "salt-abc") 1 32).
  vm_compute. reflexivity.
Defined.

(** X9: with the OpenSSL primitive, the string returned for a key length
    of [keylen] bytes, 0 up to [INT_MAX], has [4 * ceil(keylen / 3)]
    characters, for every password, salt and iteration count. *)
Theorem derive_key_length (passwd salt : list ascii) (iterations keylen : Z) :
  0 <= keylen <= INT_MAX ->
  exists key,
    derive_key PKCS5_PBKDF2_HMAC passwd salt iterations keylen = Return key
    /\ size key = 4 * ((keylen + 2) / 3).
Proof.
  intros H. destruct (derive_key_returns passwd salt iterations keylen H) as (raw & L & E).
  exists (base_64_encode raw). split; [exact E|].
  rewrite base_64_encode_EncodeBlock, EVP_EncodeBlock_length. unfold size. now rewrite L.
Qed.

Lemma derive_key_length_witness :
  exists key,
    derive_key PKCS5_PBKDF2_HMAC (str "secret123") (str "salt-abc") 1000 32 = Return key
    /\ size key = 4 * ((32 + 2) / 3).
Proof.
  apply (derive_key_length (str "secret123") (str "salt-abc") 1000 32).
  unfold INT_MAX. lia.
Defined.

Lemma PKCS5_PBKDF2_HMAC_same_key (pass pass' : list ascii) (salt : list ascii)
    (saltlen iter keylen : Z) (md : EVP_MD) (out : list ascii) :
  HMAC_Init_ex HMAC_CTX_init pass (size pass) md
  = HMAC_Init_ex HMAC_CTX_init pass' (size pass') md ->
  PKCS5_PBKDF2_HMAC pass (size pass) salt saltlen iter md keylen out
  = PKCS5_PBKDF2_HMAC pass' (size pass') salt saltlen iter md keylen out.
Proof.
  intros E. unfold PKCS5_PBKDF2_HMAC. now rewrite E.
Qed.

(** X10: [derive_key] does not tell a password of at most 64 bytes from
    the same password with zero bytes appended, up to 64 bytes in all: both
    give the same result for every salt, iteration count and key length. *)
Theorem derive_key_password_zero_padding
    (passwd salt : list ascii) (iterations keylen : Z) (n : nat) :
  size passwd + Z.of_nat n <= 64 ->
  derive_key PKCS5_PBKDF2_HMAC (passwd ++ repeat zero n) salt iterations keylen
  = derive_key PKCS5_PBKDF2_HMAC passwd salt iterations keylen.
Proof.
  intros H. unfold derive_key.
  destruct (resize [] (to_size_t keylen)) as [buf|e]; [|reflexivity].
  rewrite (PKCS5_PBKDF2_HMAC_same_key (passwd ++ repeat zero n) passwd);
    [reflexivity|]. now apply HMAC_Init_ex_zeros.
Qed.

Lemma derive_key_password_zero_padding_witness :
  derive_key PKCS5_PBKDF2_HMAC (str "secret123" ++ repeat zero 1) (str "salt-abc") 1000 32
  = derive_key PKCS5_PBKDF2_HMAC (str "secret123") (str "salt-abc") 1000 32.
Proof.
  apply (derive_key_password_zero_padding (str "secret123") (str "salt-abc") 1000 32 1).
  vm_compute. discriminate.
Defined.

(** X11: a password longer than 64 bytes gives the same result, for
    every salt, iteration count and key length, as its 32-byte SHA-256 hash
    used as the password. *)
Theorem derive_key_long_password
    (passwd salt : list ascii) (iterations keylen : Z) :
  64 < size passwd ->
  derive_key PKCS5_PBKDF2_HMAC passwd salt iterations keylen
  = derive_key PKCS5_PBKDF2_HMAC (SHA256 passwd) salt iterations keylen.
Proof.
  intros H. unfold derive_key.
  destruct (resize [] (to_size_t keylen)) as [buf|e]; [|reflexivity].
  rewrite (PKCS5_PBKDF2_HMAC_same_key passwd (SHA256 passwd));
    [reflexivity|]. now apply (HMAC_Init_ex_long HMAC_CTX_init passwd EVP_sha256).
Qed.

Lemma derive_key_long_password_witness :
  derive_key PKCS5_PBKDF2_HMAC (repeat "p"%char 65) (str "salt-abc") 1000 32
  = derive_key PKCS5_PBKDF2_HMAC (SHA256 (repeat "p"%char 65)) (str "salt-abc") 1000 32.
Proof.
  apply (derive_key_long_password (repeat "p"%char 65) (str "salt-abc") 1000 32).
  vm_compute. reflexivity.
Defined.

(** ** The key stream behind [derive_key] *)

Lemma combine_firstn_l {A B : Type} (c : nat) (p : list A) (d : list B) :
  combine (firstn c p) d = firstn c (combine p d).
Proof.
  revert p d. induction c as [|c IH]; intros [|x p] [|y d]; cbn; try reflexivity.
  now rewrite IH.
Qed.

Lemma pbkdf2_rounds_firstn (n : nat) (tpl : HMAC_CTX) (md : EVP_MD)
    (digtmp p : list ascii) (c : nat) :
  pbkdf2_rounds n tpl md digtmp (firstn c p)
  = firstn c (pbkdf2_rounds n tpl md digtmp p).
Proof.
  revert digtmp p. induction n as [|n IH]; intros digtmp p; cbn [pbkdf2_rounds].
  - reflexivity.
  - now rewrite combine_firstn_l, <- firstn_map, IH.
Qed.

Lemma pbkdf2_T_length (tpl : HMAC_CTX) (md : EVP_MD) (salt : list ascii)
    (saltlen iter i : Z) :
  Z.of_nat (length (pbkdf2_T tpl md salt saltlen iter i)) = EVP_MD_size md.
Proof.
  unfold pbkdf2_T. rewrite pbkdf2_rounds_length; rewrite HMAC_Final_length; lia.
Qed.

Lemma pbkdf2_stream_length (n : nat) (tpl : HMAC_CTX) (md : EVP_MD)
    (salt : list ascii) (saltlen iter i : Z) :
  Z.of_nat (length (pbkdf2_stream n tpl md salt saltlen iter i))
  = EVP_MD_size md * Z.of_nat n.
Proof.
  revert i. induction n as [|n IH]; intros i; cbn [pbkdf2_stream].
  - cbn. lia.
  - rewrite length_app, Nat2Z.inj_add, IH, pbkdf2_T_length. lia.
Qed.

Lemma pbkdf2_stream_app (n m : nat) (tpl : HMAC_CTX) (md : EVP_MD)
    (salt : list ascii) (saltlen iter i : Z) :
  pbkdf2_stream (n + m) tpl md salt saltlen iter i
  = pbkdf2_stream n tpl md salt saltlen iter i
    ++ pbkdf2_stream m tpl md salt saltlen iter (i + Z.of_nat n).
Proof.
  revert i. induction n as [|n IH]; intros i.
  - cbn [pbkdf2_stream Nat.add app Z.of_nat]. now rewrite Z.add_0_r.
  - cbn [pbkdf2_stream Nat.add]. rewrite IH, <- app_assoc.
    do 3 f_equal. lia.
Qed.

(** The loop writes the first [tkeylen] bytes of the stream. *)
Lemma pbkdf2_blocks_stream (fuel : nat) (tpl : HMAC_CTX) (md : EVP_MD)
    (salt : list ascii) (saltlen iter tkeylen i : Z) (out : list ascii) :
  0 <= tkeylen <= Z.of_nat fuel ->
  pbkdf2_blocks fuel tpl md salt saltlen iter tkeylen i out
  = out ++ firstn (Z.to_nat tkeylen) (pbkdf2_stream fuel tpl md salt saltlen iter i).
Proof.
  revert tkeylen i out.
  induction fuel as [|fuel IH]; intros tkeylen i out H; cbn [pbkdf2_blocks pbkdf2_stream].
  - replace tkeylen with 0 by lia. cbn. now rewrite app_nil_r.
  - destruct (Z.eqb_spec tkeylen 0) as [->|Hne]; [cbn; now rewrite app_nil_r|].
    pose proof (pbkdf2_T_length tpl md salt saltlen iter i) as LT.
    set (cplen := if tkeylen >? EVP_MD_size md then EVP_MD_size md else tkeylen).
    assert (Hc : 0 < cplen <= EVP_MD_size md /\ cplen <= tkeylen
                 /\ (cplen = EVP_MD_size md \/ cplen = tkeylen)).
    { unfold cplen, EVP_MD_size. destruct (Z.gtb_spec tkeylen 32); lia. }
    rewrite pbkdf2_rounds_firstn. fold (pbkdf2_T tpl md salt saltlen iter i).
    rewrite IH by lia. rewrite <- app_assoc. f_equal.
    rewrite firstn_app.
    set (T := pbkdf2_T tpl md salt saltlen iter i) in *.
    destruct Hc as (Hc1 & Hc2 & [Hc3|Hc3]).
    + rewrite Hc3. rewrite !firstn_all2 with (l := T) by lia.
      do 2 f_equal. lia.
    + rewrite Hc3, Z.sub_diag. cbn [Z.to_nat firstn].
      replace (Z.to_nat tkeylen - length T)%nat with 0%nat by lia. reflexivity.
Qed.

Lemma PKCS5_PBKDF2_HMAC_stream (pass : list ascii) (passlen : Z) (salt : list ascii)
    (saltlen iter keylen : Z) (md : EVP_MD) :
  0 <= keylen ->
  PKCS5_PBKDF2_HMAC pass passlen salt saltlen iter md keylen
                    (repeat zero (Z.to_nat keylen))
  = (1, firstn (Z.to_nat keylen)
          (pbkdf2_stream (Z.to_nat keylen) (HMAC_Init_ex HMAC_CTX_init pass passlen md)
                         md salt saltlen iter 1)).
Proof.
  intros H.
  destruct (PKCS5_PBKDF2_HMAC_ok pass passlen salt saltlen iter keylen md H)
    as (key & E & _).
  rewrite E. unfold PKCS5_PBKDF2_HMAC in E.
  rewrite pbkdf2_blocks_stream in E by lia. cbn [app] in E.
  injection E as <-. f_equal. rewrite store_full; [reflexivity|].
  rewrite repeat_length. apply Nat2Z.inj.
  pose proof (pbkdf2_stream_length (Z.to_nat keylen)
                (HMAC_Init_ex HMAC_CTX_init pass passlen md) md salt saltlen iter 1) as L.
  unfold EVP_MD_size in L. rewrite firstn_length_le; lia.
Qed.

(** X12: a shorter key is the beginning of a longer one: for key lengths
    [k1 <= k2], with the same password, salt and iteration count, the bytes
    encoded in the result for [k1] are the first [k1] of the bytes encoded
    in the result for [k2]. *)
Theorem derive_key_prefix (passwd salt : list ascii) (iterations k1 k2 : Z) :
  0 <= k1 <= k2 -> k2 <= INT_MAX ->
  exists raw,
    size raw = k2
    /\ derive_key PKCS5_PBKDF2_HMAC passwd salt iterations k2
       = Return (base_64_encode raw)
    /\ derive_key PKCS5_PBKDF2_HMAC passwd salt iterations k1
       = Return (base_64_encode (firstn (Z.to_nat k1) raw)).
Proof.
  intros H1 H2. rewrite !derive_key_cases by lia.
  rewrite !PKCS5_PBKDF2_HMAC_stream by lia. cbn [fst snd Z.eqb].
  set (tpl := HMAC_Init_ex _ _ _ _).
  pose proof (pbkdf2_stream_length (Z.to_nat k1) tpl EVP_sha256 salt (size salt)
                iterations 1) as L1.
  pose proof (pbkdf2_stream_length (Z.to_nat k2) tpl EVP_sha256 salt (size salt)
                iterations 1) as L2.
  unfold EVP_MD_size in L1, L2.
  eexists. split; [|split; [reflexivity|]].
  - unfold size in *. rewrite firstn_length_le; lia.
  - do 2 f_equal. rewrite firstn_firstn.
    replace (Nat.min (Z.to_nat k1) (Z.to_nat k2)) with (Z.to_nat k1) by lia.
    assert (S : pbkdf2_stream (Z.to_nat k2) tpl EVP_sha256 salt (size salt) iterations 1
                = pbkdf2_stream (Z.to_nat k1) tpl EVP_sha256 salt (size salt) iterations 1
                  ++ pbkdf2_stream (Z.to_nat k2 - Z.to_nat k1) tpl EVP_sha256 salt
                       (size salt) iterations (1 + Z.of_nat (Z.to_nat k1))).
    { rewrite <- pbkdf2_stream_app. f_equal. lia. }
    rewrite S, firstn_app.
    replace (Z.to_nat k1 - length _)%nat with 0%nat by lia.
    cbn [firstn]. now rewrite app_nil_r.
Qed.

Lemma derive_key_prefix_witness :
  exists raw,
    size raw = 64
    /\ derive_key PKCS5_PBKDF2_HMAC (str "secret123") (str "salt-abc") 1000 64
       = Return (base_64_encode raw)
    /\ derive_key PKCS5_PBKDF2_HMAC (str "secret123") (str "salt-abc") 1000 32
       = Return (base_64_encode (firstn (Z.to_nat 32) raw)).
Proof.
  apply (derive_key_prefix (str "secret123") (str "salt-abc") 1000 32 64);
    unfold INT_MAX; lia.
Defined.

(** ** [generate_wcs] *)

Lemma generate_wcs_loop_acc {rand_state : Type} (rand : rand_state -> Z * rand_state)
    (n : nat) (s : list ascii) (st : rand_state) :
  generate_wcs_loop rand n s st
  = (s ++ fst (generate_wcs_loop rand n [] st), snd (generate_wcs_loop rand n [] st)).
Proof.
  revert s st. induction n as [|n IH]; intros s st; cbn [generate_wcs_loop].
  - cbn. now rewrite app_nil_r.
  - destruct (rand st) as [r st']. rewrite IH, (IH ([] ++ _)). cbn [fst snd].
    now rewrite <- app_assoc.
Qed.

Lemma generate_wcs_loop_add {rand_state : Type} (rand : rand_state -> Z * rand_state)
    (m n : nat) (s : list ascii) (st : rand_state) :
  generate_wcs_loop rand (m + n) s st
  = generate_wcs_loop rand n (fst (generate_wcs_loop rand m s st))
                      (snd (generate_wcs_loop rand m s st)).
Proof.
  revert s st. induction m as [|m IH]; intros s st; cbn [generate_wcs_loop Nat.add].
  - reflexivity.
  - destruct (rand st) as [r st']. apply IH.
Qed.

(** X13: generating [m + n] characters is generating [m] and then, from
    the state the generator is left in, [n] more: the strings concatenate
    and the final states agree; so from the same state a shorter secret is
    the beginning of a longer one. *)
Theorem generate_wcs_add
    (rand_state : Type) (rand : rand_state -> Z * rand_state)
    (m n : Z) (st : rand_state) :
  0 <= m -> 0 <= n ->
  let first := generate_wcs rand m st in
  let second := generate_wcs rand n (snd first) in
  generate_wcs rand (m + n) st = (fst first ++ fst second, snd second)
  /\ fst first = firstn (Z.to_nat m) (fst (generate_wcs rand (m + n) st)).
Proof.
  intros Hm Hn first second.
  assert (E : generate_wcs rand (m + n) st = (fst first ++ fst second, snd second)).
  { unfold second, first, generate_wcs. rewrite Z2Nat.inj_add by lia.
    rewrite generate_wcs_loop_add. now rewrite generate_wcs_loop_acc. }
  split; [exact E|]. rewrite E. cbn [fst].
  assert (L : length (fst first) = Z.to_nat m).
  { unfold first, generate_wcs. rewrite generate_wcs_loop_length. reflexivity. }
  rewrite firstn_app, L, Nat.sub_diag, <- L, firstn_all. cbn [firstn].
  now rewrite app_nil_r.
Qed.

Lemma generate_wcs_add_witness :
  let first := generate_wcs c_rand 6 1 in
  let second := generate_wcs c_rand 8 (snd first) in
  generate_wcs c_rand (6 + 8) 1 = (fst first ++ fst second, snd second)
  /\ fst first = firstn (Z.to_nat 6) (fst (generate_wcs c_rand (6 + 8) 1)).
Proof.
  apply (generate_wcs_add Z c_rand 6 8 1); lia.
Defined.

Lemma wcs_char_nth (r : Z) :
  wcs_char r = nth (Z.to_nat (wcs_index r)) wcs_alphabet zero.
Proof.
  unfold wcs_char. pose proof (wcs_index_range r) as H.
  change WCS_SECRET_CHARSET with (wcs_alphabet ++ [zero]).
  apply app_nth1. change (length wcs_alphabet) with 62%nat. lia.
Qed.

(** X14: which character a value of [rand()] selects is decided by its
    remainder modulo 62, and by nothing less: two values between 0 and
    [INT_MAX] select the same character exactly when they are congruent
    modulo 62, and every character of the alphabet is selected by one of
    the values 0 to 61. *)
Theorem wcs_char_residue (r r' : Z) :
  0 <= r <= INT_MAX -> 0 <= r' <= INT_MAX ->
  (wcs_char r = wcs_char r' <-> r mod 62 = r' mod 62)
  /\ forall c, In c wcs_alphabet -> exists q, 0 <= q < 62 /\ wcs_char q = c.
Proof.
  unfold INT_MAX. intros H H'. split.
  - rewrite !wcs_char_nth, !wcs_index_small by lia.
    pose proof (Z.mod_pos_bound r 62 eq_refl) as B.
    pose proof (Z.mod_pos_bound r' 62 eq_refl) as B'.
    split; [|intros ->; reflexivity].
    intros E. destruct wcs_alphabet_62 as (L & N & _).
    rewrite NoDup_nth with (d := zero) in N.
    apply N in E; rewrite ?L; lia.
  - intros c Hc. destruct (In_nth _ _ zero Hc) as (n & Hn & E).
    change (length wcs_alphabet) with 62%nat in Hn.
    exists (Z.of_nat n). split; [lia|].
    rewrite wcs_char_nth, wcs_index_small by lia.
    rewrite Z.mod_small by lia. now rewrite Nat2Z.id.
Qed.

Lemma wcs_char_residue_witness :
  (wcs_char 5 = wcs_char 1245 <-> 5 mod 62 = 1245 mod 62)
  /\ forall c, In c wcs_alphabet -> exists q, 0 <= q < 62 /\ wcs_char q = c.
Proof.
  apply (wcs_char_residue 5 1245); unfold INT_MAX; lia.
Defined.
